(** * CitraIlmu: the media pipeline of [citrailmu/__init__.py]

    A shallow embedding of class [CitraIlmu]: input classification, audio
    compression, the two download paths, the AI stage, the PDF stage and
    [process_media], followed by the properties of the specification that
    concern them.

    Python strings are sequences of Unicode code points, so they are
    modelled as [list N].  The interpreter's Unicode tables and the
    third-party collaborators (moviepy, pytubefix, requests, google
    generativeai, markdown_pdf) are not part of the repository: they are
    parameters of the development. *)

From Stdlib Require Import Ascii String QArith Qround DecimalString.
From stdpp Require Import gmap strings list.

Open Scope N_scope.
Open Scope list_scope.

(** ** Python strings *)

Abbreviation pystr := (list N).

(** A literal: one code point per (ASCII) character. *)
Definition str (s : string) : pystr :=
  map N_of_ascii (String.list_ascii_of_string s).

Definition nl : pystr := [10].

Definition in_range (lo hi c : N) : bool := (lo <=? c) && (c <=? hi).

Definition is_upper (c : N) : bool := in_range 65 90 c.
Definition is_lower (c : N) : bool := in_range 97 122 c.
Definition is_digit (c : N) : bool := in_range 48 57 c.
Definition is_alpha (c : N) : bool := is_upper c || is_lower c.
Definition is_ascii (c : N) : bool := c <? 128.

(** The character set [[A-Za-z0-9_-]] of the specification. *)
Definition is_safe (c : N) : bool :=
  is_alpha c || is_digit c || (c =? 95) || (c =? 45).

(** [str.isspace] per code point: CPython's [_PyUnicode_IsWhitespace]. *)
Definition is_space (c : N) : bool :=
  in_range 9 13 c || in_range 28 32 c || (c =? 133) || (c =? 160)
  || (c =? 5760) || in_range 8192 8202 c || (c =? 8232) || (c =? 8233)
  || (c =? 8239) || (c =? 8287) || (c =? 12288).

(** The interpreter's Unicode database, as far as the code consults it:
    [alnum] and [decimal] answer [\w] and [\d] for code points from 128 on,
    [lower_text] is [str.lower] on a string that is not pure ASCII. *)
Record unicode_db := UnicodeDb {
  alnum : N -> bool;
  decimal : N -> bool;
  lower_text : pystr -> pystr
}.

(** [\w] and [\d] of a [str] pattern (no [re.ASCII] flag). *)
Definition is_word (U : unicode_db) (c : N) : bool :=
  if is_ascii c then is_alpha c || is_digit c || (c =? 95) else alnum U c.

Definition is_decimal (U : unicode_db) (c : N) : bool :=
  if is_ascii c then is_digit c else decimal U c.

Definition ascii_lower_char (c : N) : N := if is_upper c then c + 32 else c.

(** [s.lower()]. *)
Definition lower (U : unicode_db) (s : pystr) : pystr :=
  if forallb is_ascii s then map ascii_lower_char s else lower_text U s.

(** [s.startswith(p)]. *)
Fixpoint startswith (p s : pystr) : bool :=
  match p, s with
  | [], _ => true
  | a :: p', b :: s' => (a =? b) && startswith p' s'
  | _ :: _, [] => false
  end.

Fixpoint lstrip (s : pystr) : pystr :=
  match s with
  | c :: t => if is_space c then lstrip t else s
  | [] => []
  end.

Definition rstrip (s : pystr) : pystr := rev (lstrip (rev s)).

(** [s.strip()]. *)
Definition strip (s : pystr) : pystr := rstrip (lstrip s).

(** [s.replace(a, b)] for single characters [a] and [b]. *)
Definition replace_char (a b : N) (s : pystr) : pystr :=
  map (fun c => if c =? a then b else c) s.

(** [s.split(sep)[0]] for a single character [sep]. *)
Fixpoint split_head (sep : N) (s : pystr) : pystr :=
  match s with
  | [] => []
  | c :: t => if c =? sep then [] else c :: split_head sep t
  end.

(** [s.rfind(c)] for a single character, [-1] when absent. *)
Fixpoint rfind (c : N) (s : pystr) : Z :=
  match s with
  | [] => (-1)%Z
  | d :: t =>
      let r := rfind c t in
      if (0 <=? r)%Z then (r + 1)%Z
      else if d =? c then 0%Z else (-1)%Z
  end.

(** The slices [s[:i]] and [s[i:]] for [0 <= i]. *)
Definition slice_to (i : Z) (s : pystr) : pystr := take (Z.to_nat i) s.
Definition slice_from (i : Z) (s : pystr) : pystr := drop (Z.to_nat i) s.

(** ** [os.path] (POSIX flavour) *)

(** [os.path.basename]: what follows the last slash. *)
Definition basename (p : pystr) : pystr := slice_from (rfind 47 p + 1) p.

(** The loop of [genericpath._splitext] that skips leading dots: is there
    a character other than a dot in [s]? *)
Definition has_non_dot (s : pystr) : bool := existsb (fun c => negb (c =? 46)) s.

(** [os.path.splitext(p)[0]]. *)
Definition splitext_root (p : pystr) : pystr :=
  let sepIndex := rfind 47 p in
  let dotIndex := rfind 46 p in
  if (sepIndex <? dotIndex)%Z
  then if has_non_dot (slice_from (sepIndex + 1) (slice_to dotIndex p))
       then slice_to dotIndex p
       else p
  else p.

(** [os.path.join(a, b)]. *)
Definition path_join (a b : pystr) : pystr :=
  if startswith (str "/") b then b
  else match last a with
       | None => b
       | Some c => if c =? 47 then a ++ b else a ++ str "/" ++ b
       end.

(** ** Regular expressions

    The fragment of [re] the module uses: literals, character classes,
    sequence, alternation, greedy repetition.  [re_run] is a backtracking
    matcher with Python's priorities (left alternative first, longest
    repetition first); it calls the continuation [k] on what is left of
    the subject after a candidate match, and backtracks when [k] fails. *)

Inductive regex :=
| Eps
| Cls (p : N -> bool)
| Seq (r1 r2 : regex)
| Alt (r1 r2 : regex)
| Star (r : regex).

Definition Chr (c : N) : regex := Cls (N.eqb c).
Definition Lit (s : pystr) : regex := foldr (fun c r => Seq (Chr c) r) Eps s.
Definition Opt (r : regex) : regex := Alt r Eps.
Definition Plus (r : regex) : regex := Seq r (Star r).

(** Greedy repetition of [body]: one more round first, then the rest of
    the pattern; a round that consumes nothing is not taken.  No more than
    [length s] rounds fit in [s]. *)
Fixpoint star_loop {A} (body : pystr -> (pystr -> option A) -> option A)
    (k : pystr -> option A) (n : nat) (s : pystr) : option A :=
  match n with
  | O => k s
  | S n' =>
      match body s (fun s' =>
              if (length s' <? length s)%nat then star_loop body k n' s' else None) with
      | Some x => Some x
      | None => k s
      end
  end.

Fixpoint re_run {A} (r : regex) (s : pystr) (k : pystr -> option A) : option A :=
  match r with
  | Eps => k s
  | Cls p =>
      match s with
      | c :: t => if p c then k t else None
      | [] => None
      end
  | Seq r1 r2 => re_run r1 s (fun s' => re_run r2 s' k)
  | Alt r1 r2 =>
      match re_run r1 s k with
      | Some x => Some x
      | None => re_run r2 s k
      end
  | Star r1 => star_loop (re_run r1) k (length s) s
  end.

(** One attempt at the start of [s]; with [must_advance] an empty match is
    refused (and the matcher backtracks), as after an empty match of
    [re.sub]. *)
Definition match_at (r : regex) (must_advance : bool) (s : pystr) : option pystr :=
  re_run r s (fun rest =>
    if must_advance && (length rest =? length s)%nat then None else Some rest).

(** [bool(re.match(r, s))]. *)
Definition re_match (r : regex) (s : pystr) : bool :=
  match match_at r false s with Some _ => true | None => false end.

(** The scan of [re.sub]: leftmost matches replaced by [repl], other
    characters copied. *)
Fixpoint sub_loop (fuel : nat) (r : regex) (repl : pystr)
    (must_advance : bool) (s : pystr) : pystr :=
  match fuel with
  | O => s
  | S fuel' =>
      match match_at r must_advance s with
      | Some rest =>
          repl ++ sub_loop fuel' r repl (length rest =? length s)%nat rest
      | None =>
          match s with
          | [] => []
          | c :: t => c :: sub_loop fuel' r repl false t
          end
      end
  end.

(** [re.sub(r, repl, s)] for a replacement without group references. *)
Definition re_sub (r : regex) (repl s : pystr) : pystr :=
  sub_loop (2 * length s + 2) r repl false s.

(** ** The patterns of the module *)

(** [r'[^\w\-]'] *)
Definition unsafe_char (U : unicode_db) : regex :=
  Cls (fun c => negb (is_word U c || (c =? 45))).

(** [re.sub(r'[^\w\-]', '_', s)], the substitution applied to base names. *)
Definition sanitize (U : unicode_db) (s : pystr) : pystr :=
  re_sub (unsafe_char U) (str "_") s.

(** Lines 61 and 193: the sanitized base name of a path, extension dropped. *)
Definition sanitized_stem (U : unicode_db) (path : pystr) : pystr :=
  sanitize U (splitext_root (basename path)).

(** [r'(https?://)?(www\.)?(youtube|youtu|youtube-nocookie)\.(com|be)/'] *)
Definition youtube_regex : regex :=
  Seq (Opt (Seq (Lit (str "http")) (Seq (Opt (Chr 115)) (Lit (str "://")))))
 (Seq (Opt (Lit (str "www.")))
 (Seq (Alt (Lit (str "youtube"))
      (Alt (Lit (str "youtu")) (Lit (str "youtube-nocookie"))))
 (Seq (Chr 46)
 (Seq (Alt (Lit (str "com")) (Lit (str "be")))
      (Chr 47))))).

Definition is_hex (U : unicode_db) (c : N) : bool :=
  is_decimal U c || in_range 97 102 c || in_range 65 70 c.

(** [r'https?://(?:[-\w.]|(?:%[\da-fA-F]{2}))+'] *)
Definition url_regex (U : unicode_db) : regex :=
  Seq (Lit (str "http")) (Seq (Opt (Chr 115)) (Seq (Lit (str "://"))
    (Plus (Alt (Cls (fun c => (c =? 45) || is_word U c || (c =? 46)))
               (Seq (Chr 37) (Seq (Cls (is_hex U)) (Cls (is_hex U)))))))).

(** [r'```[a-zA-Z]*\n'] *)
Definition fence_open_regex : regex :=
  Seq (Lit (str "```")) (Seq (Star (Cls is_alpha)) (Chr 10)).

(** [r'```\n?'] *)
Definition fence_regex : regex :=
  Seq (Lit (str "```")) (Opt (Chr 10)).

(** [__is_youtube_url] *)
Definition is_youtube_url (url : pystr) : bool := re_match youtube_regex url.

(** [__is_url] *)
Definition is_url (U : unicode_db) (url : pystr) : bool := re_match (url_regex U) url.

(** [__clean_markdown] *)
Definition clean_markdown (text : pystr) : pystr :=
  let text := re_sub fence_open_regex [] text in
  let text := re_sub fence_regex [] text in
  strip text.

(** ** Numbers in text *)

(** [str(z)] for an integer. *)
Definition dec_str (z : Z) : pystr := str (NilZero.string_of_int (Z.to_int z)).

(** The format [{z:02d}]. *)
Definition fmt_02d (z : Z) : pystr :=
  if ((0 <=? z) && (z <? 10))%Z then str "0" ++ dec_str z else dec_str z.

(** [__format_duration].  A duration is a float in the source; it is a
    rational here, with the exact floor division and remainder. *)
Definition format_duration (seconds : Q) : pystr :=
  let hours := Qfloor (seconds / inject_Z 3600) in
  let minutes := Qfloor ((seconds - inject_Z (3600 * hours)) / inject_Z 60) in
  let seconds := Qfloor (seconds - inject_Z (60 * Qfloor (seconds / inject_Z 60))) in
  fmt_02d hours ++ str ":" ++ fmt_02d minutes ++ str ":" ++ fmt_02d seconds.

(** ** The world the module runs in *)

Inductive level := INFO | ERROR.

(** An exception (every one below is a subclass of [Exception]);
    [exn_msg] is [str(e)]. *)
Record exn := Exn { exn_type : string; exn_msg : pystr }.

Inductive result (A : Type) :=
| Ret (a : A)
| Raise (e : exn).
Arguments Ret {A} a.
Arguments Raise {A} e.

(** Local storage holds regular files; [readers] are the decoder
    processes that are open; [clock] counts the calls made to the outside,
    so that a collaborator may answer the same call differently later.
    A file is named by its path as written: two spellings of one file
    ([/tmp/./a] and [/tmp/a], a relative path, a link) are two entries
    here, so the statements below speak of the paths the code itself
    builds and tests, not of all the other paths of the storage. *)
Record world := World {
  files : gmap pystr (list N);
  logged : list (level * pystr);
  readers : gset N;
  next_reader : N;
  clock : nat
}.

Definition set_files (f : gmap pystr (list N) -> gmap pystr (list N)) (w : world) : world :=
  World (f (files w)) (logged w) (readers w) (next_reader w) (clock w).
Definition add_log (e : level * pystr) (w : world) : world :=
  World (files w) (logged w ++ [e]) (readers w) (next_reader w) (clock w).
Definition tick (w : world) : world :=
  World (files w) (logged w) (readers w) (next_reader w) (S (clock w)).
Definition open_reader (w : world) : world :=
  World (files w) (logged w) ({[next_reader w]} ∪ readers w) (next_reader w + 1) (clock w).
Definition close_reader (r : N) (w : world) : world :=
  World (files w) (logged w) (readers w ∖ {[r]}) (next_reader w) (clock w).

(** An [AudioFileClip]: the decoder process it reads from, and its length. *)
Record clip := Clip { clip_reader : N; clip_duration : Q }.

(** A streamed [requests] response: [iter_content n] is what iterating with
    chunk size [n] yields, and the exception that ends it, if any. *)
Record response := Response {
  status_code : Z;
  iter_content : N -> list (list N) * option exn
}.

(** A [MarkdownPdf] document in memory. *)
Record pdf_doc := PdfDoc {
  toc_level : N;
  sections : list (pystr * pystr);
  meta : list (pystr * pystr)
}.

(** The collaborators.  Each call sees the world and either raises or
    answers; what it changes on local storage is spelled out by the
    primitive that wraps it below. *)
Record collaborators := Collaborators {
  gettempdir : pystr;
  (* moviepy *)
  audio_open : pystr -> world -> exn + Q;
  audio_fadeout_error : clip -> world -> option exn;
  audio_encode : clip -> pystr -> world -> exn + list N;
  (* pytubefix *)
  youtube_title : pystr -> world -> exn + pystr;
  youtube_download : pystr -> pystr -> pystr -> world -> exn + (pystr * option (list N));
  (* builtins, requests, time, datetime, uuid *)
  open_error : pystr -> world -> option exn;
  requests_get : pystr -> world -> exn + response;
  time_time : world -> Z;
  strftime_now : world -> pystr;
  uuid4 : world -> pystr;
  (* google.generativeai *)
  genai_configure_error : pystr -> world -> option exn;
  genai_upload_file : pystr -> world -> exn + pystr;
  genai_generate : pystr -> pystr -> pystr -> world -> exn + pystr;
  (* markdown_pdf *)
  pdf_new_error : world -> option exn;
  pdf_add_section_error : pdf_doc -> pystr -> pystr -> world -> option exn;
  pdf_save : pdf_doc -> pystr -> world -> exn + list N
}.

(** The attributes of a [CitraIlmu] object. *)
Record citrailmu := CitraIlmu {
  aigc_model : pystr;
  api_key : option pystr
}.

(** ** Programs: state and exceptions *)

Definition prog (S A : Type) : Type := S -> result A * S.

#[global] Instance prog_ret {S} : MRet (prog S) := fun A a s => (Ret a, s).
#[global] Instance prog_bind {S} : MBind (prog S) := fun A B f m s =>
  match m s with
  | (Ret a, s') => f a s'
  | (Raise e, s') => (Raise e, s')
  end.

Definition raise {S A} (e : exn) : prog S A := fun s => (Raise e, s).

(** [try: body except Exception as e: handler e] *)
Definition try_except {S A} (body : prog S A) (handler : exn -> prog S A) : prog S A :=
  fun s =>
    match body s with
    | (Ret a, s') => (Ret a, s')
    | (Raise e, s') => handler e s'
    end.

(** [try: body finally: final] *)
Definition try_finally {S A} (body : prog S A) (final : prog S unit) : prog S A :=
  fun s =>
    match body s with
    | (r, s') =>
        match final s' with
        | (Ret _, s'') => (r, s'')
        | (Raise e, s'') => (Raise e, s'')
        end
    end.

(** A local variable of the enclosing function, visible to its [finally]
    clause and handlers. *)
Definition with_var {V A} (init : V) (p : prog (V * world) A) : prog world A :=
  fun w => match p (init, w) with (r, (_, w')) => (r, w') end.
Definition lift {V A} (p : prog world A) : prog (V * world) A :=
  fun s => match p s.2 with (r, w') => (r, (s.1, w')) end.
Definition get_var {V} : prog (V * world) V := fun s => (Ret s.1, s).
Definition set_var {V} (v : V) : prog (V * world) unit := fun s => (Ret tt, (v, s.2)).

(** Reading a local that may not have been assigned. *)
Definition read_local {V} (name : string) : prog (option V * world) V :=
  v ← get_var;
  match v with
  | Some x => mret x
  | None => raise (Exn "UnboundLocalError"
                     (str "local variable '" ++ str name ++ str "' referenced before assignment"))
  end.

Definition modify (f : world -> world) : prog world unit := fun w => (Ret tt, f w).
Definition gets {A} (f : world -> A) : prog world A := fun w => (Ret (f w), w).

(** A call to the outside that raises or answers. *)
Definition call {A} (f : world -> exn + A) : prog world A :=
  fun w => match f w with
           | inl e => (Raise e, tick w)
           | inr a => (Ret a, tick w)
           end.
Definition call_unit (f : world -> option exn) : prog world unit :=
  fun w => match f w with
           | Some e => (Raise e, tick w)
           | None => (Ret tt, tick w)
           end.
Definition ask {A} (f : world -> A) : prog world A := fun w => (Ret (f w), tick w).

Definition tagged (task_id msg : pystr) : pystr := str "[" ++ task_id ++ str "] " ++ msg.

Definition logger_info (msg : pystr) : prog world unit := modify (add_log (INFO, msg)).
Definition logger_error (msg : pystr) : prog world unit := modify (add_log (ERROR, msg)).

(** [os.path.isfile] and [os.path.exists]. *)
Definition path_isfile (w : world) (p : pystr) : bool := bool_decide (is_Some (files w !! p)).
Definition os_path_isfile (p : pystr) : prog world bool := gets (fun w => path_isfile w p).
Definition os_path_exists (p : pystr) : prog world bool := gets (fun w => path_isfile w p).

(** [os.unlink]: removes a file that is there. *)
Definition os_unlink (p : pystr) : prog world unit :=
  fun w => if path_isfile w p then (Ret tt, set_files (delete p) w)
           else (Raise (Exn "FileNotFoundError" p), w).

Definition write_file (p : pystr) (data : list N) : prog world unit :=
  modify (set_files (insert p data)).
Definition append_file (p : pystr) (data : list N) : prog world unit :=
  modify (set_files (fun fs => <[p := default [] (fs !! p) ++ data]> fs)).

Section Pipeline.

Context (U : unicode_db) (X : collaborators) (self : citrailmu).

(** [AudioFileClip(path)]: starts a decoder process. *)
Definition AudioFileClip (path : pystr) : prog world clip :=
  d ← call (audio_open X path);
  r ← gets next_reader;
  modify open_reader;;
  mret (Clip r d).

(** [clip.audio_fadeout(0.1)]: a copy of the clip on the same reader. *)
Definition audio_fadeout (c : clip) : prog world clip :=
  call_unit (audio_fadeout_error X c);;
  mret c.

(** [clip.write_audiofile(path, fps=22050, nbytes=2, bitrate="16k", ...)] *)
Definition write_audiofile (c : clip) (path : pystr) : prog world unit :=
  data ← call (audio_encode X c path);
  write_file path data.

(** [clip.close()]: ends the decoder process. *)
Definition clip_close (c : clip) : prog world unit :=
  modify (close_reader (clip_reader c)).

(** [__compress_audio] *)
Definition compress_audio (filepath task_id : pystr) : prog world (option pystr) :=
  logger_info (tagged task_id (str "Compressing audio: " ++ filepath));;
  try_except
    (let filename := sanitized_stem U filepath in
     let temp_path := path_join (gettempdir X) (filename ++ str ".mp3") in
     with_var None
       (try_finally
          (audio ← lift (AudioFileClip filepath);
           set_var (Some audio);;
           audio ← lift (audio_fadeout audio);
           set_var (Some audio);;
           lift (write_audiofile audio temp_path);;
           mret (Some temp_path))
          (audio ← get_var;
           match audio with
           | Some a => lift (clip_close a)
           | None => mret tt
           end)))
    (fun e =>
       logger_error (tagged task_id (str "Audio compression failed: " ++ exn_msg e));;
       mret None).

(** Lines 117-122 and 141-144: compress the download, then delete it if it
    is there. *)
Definition compress_and_discard (downloaded_file task_id : pystr) : prog world (option pystr) :=
  compressed_audio ← compress_audio downloaded_file task_id;
  there ← os_path_exists downloaded_file;
  (if there : bool then os_unlink downloaded_file else mret tt);;
  mret compressed_audio.

(** The name given to the download of a video (line 111). *)
Definition youtube_temp_filename (task_id title : pystr) : pystr :=
  task_id ++ str "_" ++ title ++ str ".m4a".

(** Lines 110-115: [YouTube(url)], its title, and the download of the
    audio-only stream; the answer is the path of the downloaded file. *)
Definition youtube_fetch (url task_id : pystr) : prog world pystr :=
  title ← call (youtube_title X url);
  let temp_filename := youtube_temp_filename task_id title in
  got ← call (youtube_download X url (gettempdir X) temp_filename);
  match got.2 with
  | Some data => write_file got.1 data
  | None => mret tt
  end;;
  mret got.1.

(** [__process_youtube] *)
Definition process_youtube (url task_id : pystr) : prog world (option pystr) :=
  logger_info (tagged task_id (str "Processing YouTube URL: " ++ url));;
  try_except
    (downloaded_file ← youtube_fetch url task_id;
     compress_and_discard downloaded_file task_id)
    (fun e =>
       logger_error (tagged task_id (str "YouTube processing failed: " ++ exn_msg e));;
       mret None).

(** Lines 132-133: the path of the temporary file of a web download. *)
Definition web_temp_path (url : pystr) : prog world pystr :=
  filename ← match basename (split_head 63 url) with
             | [] => t ← ask (time_time X); mret (str "download_" ++ dec_str t)
             | b => mret b
             end;
  mret (path_join (gettempdir X) (filename ++ str ".mp4")).

(** [for chunk in ...: f.write(chunk)] *)
Fixpoint write_chunks (path : pystr) (chunks : list (list N)) : prog world unit :=
  match chunks with
  | [] => mret tt
  | chunk :: rest => append_file path chunk;; write_chunks path rest
  end.

(** Lines 135-139: the [with open(temp_path, 'wb')] block. *)
Definition web_download (url temp_path : pystr) : prog world unit :=
  call_unit (open_error X temp_path);;
  write_file temp_path [];;
  response ← call (requests_get X url);
  if (status_code response =? 200)%Z
  then
    let stream := iter_content response 8192 in
    write_chunks temp_path stream.1;;
    match stream.2 with
    | Some e => raise e
    | None => mret tt
    end
  else mret tt.

(** Lines 132-139 together; the answer is the path of the downloaded file. *)
Definition web_fetch (url : pystr) : prog world pystr :=
  temp_path ← web_temp_path url;
  web_download url temp_path;;
  mret temp_path.

(** [__process_web_url] *)
Definition process_web_url (url task_id : pystr) : prog world (option pystr) :=
  logger_info (tagged task_id (str "Processing web URL: " ++ url));;
  try_except
    (temp_path ← web_fetch url;
     compress_and_discard temp_path task_id)
    (fun e =>
       logger_error (tagged task_id (str "URL processing failed: " ++ exn_msg e));;
       mret None).

(** [__media_processor] *)
Definition media_processor (input_path task_id : pystr) : prog world (option pystr) :=
  try_except
    (isfile ← os_path_isfile input_path;
     if isfile : bool then compress_audio input_path task_id
     else if is_youtube_url input_path then process_youtube input_path task_id
     else if is_url U input_path then process_web_url input_path task_id
     else
       logger_error (tagged task_id (str "Invalid input: not a file path or URL"));;
       mret None)
    (fun e =>
       logger_error (tagged task_id (str "Media processing failed: " ++ exn_msg e));;
       mret None).

Definition prompt_analysis (formatted_duration target_language : pystr) : pystr :=
  str "You are an expert audio transcriber and content analyst. Your task is to provide a transcript of the given audio file from 00:00 to "
  ++ formatted_duration
  ++ str ". You must list down every discussed topic, themes, points and reflections in "
  ++ target_language
  ++ str ". You must begin with the most suitable title of the speech with overview of the speech and must end with the conclusion. Do not include any opening or closing remarks.".

Definition prompt_transcript (formatted_duration : pystr) : pystr :=
  str "You are an expert audio transcriber. Your task is to provide a transcript of the given audio file from 00:00 to "
  ++ formatted_duration
  ++ str ". You must begin with the most suitable title of the speech with overview of the speech. Do not include any opening or closing remarks.".

(** Lines 177-184: upload, generation, cleaning. *)
Definition aigc_generate (input_path processing_mode task_id prompt : pystr)
    : prog world (option pystr) :=
  audio_file ← call (genai_upload_file X input_path);
  logger_info (tagged task_id (str "Uploading audio: " ++ audio_file));;
  logger_info (tagged task_id (str "Processing AI " ++ processing_mode ++ str "..."));;
  text ← call (genai_generate X (aigc_model self) prompt audio_file);
  mret (Some (clean_markdown text)).

(** Lines 159-165: configuration of the client and the length of the audio. *)
Definition aigc_probe (input_path : pystr) : prog world pystr :=
  match api_key self with
  | Some (c :: k) => call_unit (genai_configure_error X (c :: k))
  | _ => mret tt
  end;;
  audio ← AudioFileClip input_path;
  let duration := clip_duration audio in
  let formatted_duration := format_duration duration in
  clip_close audio;;
  mret formatted_duration.

(** [__aigc_processor] *)
Definition aigc_processor (input_path target_language processing_mode task_id : pystr)
    : prog world (option pystr) :=
  try_except
    (formatted_duration ← aigc_probe input_path;
     if bool_decide (lower U processing_mode = str "analysis") then
       aigc_generate input_path processing_mode task_id
         (prompt_analysis formatted_duration target_language)
     else if bool_decide (lower U processing_mode = str "transcript") then
       aigc_generate input_path processing_mode task_id
         (prompt_transcript formatted_duration)
     else
       logger_error (tagged task_id (str "Invalid processing mode: " ++ processing_mode));;
       mret None)
    (fun e =>
       logger_error (tagged task_id
         (str "AI " ++ processing_mode ++ str " processing failed: " ++ exn_msg e));;
       mret None).

(** The style sheet of the PDF (lines 201-236). *)
Definition css : pystr := str "            
            body {
                font-family: 'Segoe UI', sans-serif;
                text-align: justify;
                text-justify: inter-word;
            }
            
            /* Arabic text specific */
            [lang='ar'] {
                direction: rtl;
            }
            
            table, th, td {
                border: 1px solid black;
            }
            
            h1 {
                text-align: center;
                color: #2c3e50;
                margin-top: 1.5em;
                margin-bottom: 0.8em;
                font-size: 1.25em;
                font-weight: 500;
            }
            
            h2, h3, h4, h5, h6 {
                color: #34495e;
                margin-top: 1.5em;
                margin-bottom: 0.8em;
                text-align: left;
            }
            
            p {
                margin: 0.8em 0;
            }
            ".

Definition set_meta (key value : pystr) (pdf : pdf_doc) : pdf_doc :=
  PdfDoc (toc_level pdf) (sections pdf) (meta pdf ++ [(key, value)]).

(** [MarkdownPdf(toc_level=n)] *)
Definition MarkdownPdf (n : N) : prog world pdf_doc :=
  call_unit (pdf_new_error X);;
  mret (PdfDoc n [] []).

(** [pdf.add_section(Section(text, toc=True), user_css=css)] *)
Definition pdf_add_section (pdf : pdf_doc) (text user_css : pystr) : prog world pdf_doc :=
  call_unit (pdf_add_section_error X pdf text user_css);;
  mret (PdfDoc (toc_level pdf) (sections pdf ++ [(text, user_css)]) (meta pdf)).

(** [pdf.save(path)] *)
Definition pdf_save_to (pdf : pdf_doc) (path : pystr) : prog world unit :=
  data ← call (pdf_save X pdf path);
  write_file path data.

(** Lines 239-246: the heading put before a text that has none.  The local
    [title] is assigned in two of the three branches only. *)
Definition ensure_heading (markdown_text target_language processing_mode : pystr)
    : prog (option pystr * world) pystr :=
  if negb (startswith (str "# ") markdown_text) then
    (if bool_decide (lower U processing_mode = str "analysis") then
       set_var (Some (str "CitraIlmu Analysis (" ++ target_language ++ str ")"))
     else if bool_decide (lower U processing_mode = str "transcript") then
       set_var (Some (str "CitraIlmu Transcript (" ++ target_language ++ str ")"))
     else mret tt);;
    title ← read_local "title";
    mret (str "# " ++ title ++ nl ++ nl ++ markdown_text)
  else mret markdown_text.

(** Lines 193-195: the path of the PDF. *)
Definition pdf_path_of (original_path target_language processing_mode : pystr) : pystr :=
  let filename := sanitized_stem U original_path in
  let clean_filename :=
    filename ++ str "_" ++ lower U processing_mode ++ str "_"
    ++ replace_char 32 95 (lower U target_language) in
  path_join (gettempdir X) (clean_filename ++ str ".pdf").

(** [__markdown_to_pdf] *)
Definition markdown_to_pdf
    (markdown_text original_path target_language processing_mode task_id : pystr)
    : prog world (option pystr) :=
  try_except
    (let pdf_path := pdf_path_of original_path target_language processing_mode in
     logger_info (tagged task_id (str "Generating PDF: " ++ pdf_path));;
     pdf ← MarkdownPdf 3;
     with_var None
       (markdown_text ← ensure_heading markdown_text target_language processing_mode;
        pdf ← lift (pdf_add_section pdf markdown_text css);
        title ← read_local "title";
        let pdf := set_meta (str "title") title pdf in
        title ← read_local "title";
        let pdf := set_meta (str "subject") title pdf in
        let pdf := set_meta (str "author") (str "Ikmal Said") pdf in
        let pdf := set_meta (str "creator") (str "CitraIlmu") pdf in
        lift (pdf_save_to pdf pdf_path);;
        mret (Some pdf_path)))
    (fun e =>
       logger_error (tagged task_id (str "PDF generation failed: " ++ exn_msg e));;
       mret None).

(** [__get_taskid] *)
Definition get_taskid : prog world pystr :=
  timestamp ← ask (strftime_now X);
  uuid ← ask (uuid4 X);
  let uuid_part := take 8 uuid in
  mret (timestamp ++ str "_" ++ uuid_part).

(** [process_media], with the three private methods it calls as
    arguments. *)
Definition process_media_with
    (acquire : pystr -> pystr -> prog world (option pystr))
    (aigc : pystr -> pystr -> pystr -> pystr -> prog world (option pystr))
    (to_pdf : pystr -> pystr -> pystr -> pystr -> pystr -> prog world (option pystr))
    (input_path target_language processing_mode : pystr)
    : prog world (option pystr * option pystr) :=
  task_id ← get_taskid;
  logger_info (tagged task_id
    (str "Task started: " ++ processing_mode ++ str " in " ++ target_language));;
  try_except
    (compressed_file ← acquire input_path task_id;
     match compressed_file with
     | None | Some [] => mret (None, None)
     | Some compressed_file =>
         markdown_text ← aigc compressed_file target_language processing_mode task_id;
         match markdown_text with
         | None | Some [] => mret (Some compressed_file, None)
         | Some markdown_text =>
             pdf_file ← to_pdf markdown_text compressed_file target_language
                          processing_mode task_id;
             match pdf_file with
             | None | Some [] => mret (Some compressed_file, None)
             | Some pdf_file =>
                 logger_info (tagged task_id (str "Task completed successfully"));;
                 mret (Some compressed_file, Some pdf_file)
             end
         end
     end)
    (fun e =>
       logger_error (tagged task_id (str "Task failed: " ++ exn_msg e));;
       mret (None, None)).

(** [process_media] *)
Definition process_media (input_path target_language processing_mode : pystr)
    : prog world (option pystr * option pystr) :=
  process_media_with media_processor aigc_processor markdown_to_pdf
    input_path target_language processing_mode.

(** The four kinds of input of the specification's [classify], decided as
    [__media_processor] decides its branch. *)
Inductive input_kind := LocalFile | StreamingUrl | GenericUrl | Invalid.

Definition classify (w : world) (input : pystr) : input_kind :=
  if path_isfile w input then LocalFile
  else if is_youtube_url input then StreamingUrl
  else if is_url U input then GenericUrl
  else Invalid.

End Pipeline.

(** ** Vocabulary of the statements *)

(** The language of a pattern, as a relation. *)
Inductive lang : regex -> pystr -> Prop :=
| lang_eps : lang Eps []
| lang_cls p c : p c = true -> lang (Cls p) [c]
| lang_seq r1 r2 a b : lang r1 a -> lang r2 b -> lang (Seq r1 r2) (a ++ b)
| lang_alt_l r1 r2 a : lang r1 a -> lang (Alt r1 r2) a
| lang_alt_r r1 r2 a : lang r2 a -> lang (Alt r1 r2) a
| lang_star_nil r : lang (Star r) []
| lang_star_cons r a b :
    a <> [] -> lang r a -> lang (Star r) b -> lang (Star r) (a ++ b).

(** [re.match(r, s)] succeeds: a prefix of [s] is in the language. *)
Definition matches (r : regex) (s : pystr) : Prop :=
  exists p rest, s = p ++ rest /\ lang r p.

(** The base name of a path, in words: what follows its last slash, the
    whole path when it has none. *)
Definition is_basename (path base : pystr) : Prop :=
  (47 ∉ base) /\ (path = base \/ exists dir, path = dir ++ [47] ++ base).

(** The stem of a base name, in words: the name up to its last dot, when
    some character other than a dot stands before that dot; the whole
    name otherwise. *)
Definition is_stem (base stem : pystr) : Prop :=
  (exists ext,
     base = stem ++ [46] ++ ext /\ (46 ∉ ext) /\ exists c, c ∈ stem /\ c <> 46)
  \/ (stem = base
      /\ forall a ext, base = a ++ [46] ++ ext -> 46 ∉ ext -> forall c, c ∈ a -> c = 46).

(** What [sanitize] does to one character. *)
Definition sanitize_char (U : unicode_db) (c : N) : N :=
  if is_word U c || (c =? 45) then c else 95.

(** [p in s] for strings. *)
Fixpoint contains (p s : pystr) : bool :=
  startswith p s ||
  match s with
  | [] => false
  | _ :: t => contains p t
  end.

(** The letters at the start of a string, skipped. *)
Fixpoint skip_alpha (s : pystr) : pystr :=
  match s with
  | c :: t => if is_alpha c then skip_alpha t else s
  | [] => []
  end.

Definition expect_nl (s : pystr) : option pystr :=
  match s with
  | c :: rest => if 10 =? c then Some rest else None
  | [] => None
  end.

Definition strip_nl (s : pystr) : pystr :=
  match expect_nl s with
  | Some rest => rest
  | None => s
  end.

(** The number of backticks a string starts with. *)
Fixpoint lead (s : pystr) : nat :=
  match s with
  | c :: t => if 96 =? c then S (lead t) else O
  | [] => O
  end.




(** The value of an optional string when it is truthy. *)
Definition present (o : option pystr) : option pystr :=
  match o with
  | Some (c :: s) => Some (c :: s)
  | _ => None
  end.

(** The task id [process_media] draws in world [w], and the world in which
    its [try] block starts. *)
Definition task_id_of (X : collaborators) (w : world) : pystr :=
  strftime_now X w ++ str "_" ++ take 8 (uuid4 X (tick w)).

Definition task_world (X : collaborators) (target_language processing_mode : pystr)
    (w : world) : world :=
  add_log (INFO, tagged (task_id_of X w)
    (str "Task started: " ++ processing_mode ++ str " in " ++ target_language))
    (tick (tick w)).

(** The spec's reading of a lower-case pattern as case-insensitive: the
    subject is compared after lowering its ASCII letters. *)
Definition matches_ignore_case (r : regex) (s : pystr) : Prop :=
  matches r (map ascii_lower_char s).

(** Unicode tables that know no alphanumeric beyond ASCII. *)
Definition ascii_db : unicode_db :=
  UnicodeDb (fun _ => false) (fun _ => false) (fun s => s).

(** Unicode tables that know the letters of Latin-1 ([À] to [ÿ], the two
    signs [×] and [÷] apart) besides ASCII. *)
Definition latin1_db : unicode_db :=
  UnicodeDb (fun c => in_range 192 255 c && negb (c =? 215) && negb (c =? 247))
            (fun _ => false) (fun s => s).

(** A world with no file, no log and no open decoder. *)
Definition empty_world : world := World ∅ [] ∅ 0 0.

(** Collaborators that all succeed: every file on storage decodes, the
    video is called [My talk: part 1], the web answers 200 with two
    chunks, the model answers with a short text. *)
Definition studio : collaborators := {|
  gettempdir := str "/tmp";
  audio_open := fun p w =>
    if path_isfile w p then inr (125 # 2)%Q
    else inl (Exn "OSError" (str "file not found"));
  audio_fadeout_error := fun _ _ => None;
  audio_encode := fun _ _ _ => inr [73; 68; 51];
  youtube_title := fun _ _ => inr (str "My talk: part 1");
  youtube_download := fun _ dir name _ => inr (path_join dir name, Some [102; 116; 121; 112]);
  open_error := fun _ _ => None;
  requests_get := fun _ _ => inr (Response 200 (fun _ => ([[1; 2]; [3]], None)));
  time_time := fun _ => 1700000000%Z;
  strftime_now := fun _ => str "20250101_120000";
  uuid4 := fun _ => str "0123abcd-0000-4000-8000-000000000000";
  genai_configure_error := fun _ _ => None;
  genai_upload_file := fun _ _ => inr (str "files/abc");
  genai_generate := fun _ _ _ _ => inr (str "Some *analysis* text");
  pdf_new_error := fun _ => None;
  pdf_add_section_error := fun _ _ _ _ => None;
  pdf_save := fun _ _ _ => inr [37; 80; 68; 70]
|}.

(** [X] with another model behind [generate_content]. *)
Definition with_model (answer : pystr) (X : collaborators) : collaborators := {|
  gettempdir := gettempdir X;
  audio_open := audio_open X;
  audio_fadeout_error := audio_fadeout_error X;
  audio_encode := audio_encode X;
  youtube_title := youtube_title X;
  youtube_download := youtube_download X;
  open_error := open_error X;
  requests_get := requests_get X;
  time_time := time_time X;
  strftime_now := strftime_now X;
  uuid4 := uuid4 X;
  genai_configure_error := genai_configure_error X;
  genai_upload_file := genai_upload_file X;
  genai_generate := fun _ _ _ _ => inr answer;
  pdf_new_error := pdf_new_error X;
  pdf_add_section_error := pdf_add_section_error X;
  pdf_save := pdf_save X
|}.

(** [X] with an encoder that writes an empty file, and a decoder that
    cannot read the duration of one. *)
Definition with_silent_encoder (X : collaborators) : collaborators := {|
  gettempdir := gettempdir X;
  audio_open := fun p w =>
    match files w !! p with
    | Some (_ :: _) => inr (125 # 2)%Q
    | Some [] => inl (Exn "OSError" (str "failed to read the duration of the file"))
    | None => inl (Exn "OSError" (str "file not found"))
    end;
  audio_fadeout_error := audio_fadeout_error X;
  audio_encode := fun _ _ _ => inr [];
  youtube_title := youtube_title X;
  youtube_download := youtube_download X;
  open_error := open_error X;
  requests_get := requests_get X;
  time_time := time_time X;
  strftime_now := strftime_now X;
  uuid4 := uuid4 X;
  genai_configure_error := genai_configure_error X;
  genai_upload_file := genai_upload_file X;
  genai_generate := genai_generate X;
  pdf_new_error := pdf_new_error X;
  pdf_add_section_error := pdf_add_section_error X;
  pdf_save := pdf_save X
|}.

(** [X] with a network that refuses the connection. *)
Definition with_failing_get (X : collaborators) : collaborators := {|
  gettempdir := gettempdir X;
  audio_open := audio_open X;
  audio_fadeout_error := audio_fadeout_error X;
  audio_encode := audio_encode X;
  youtube_title := youtube_title X;
  youtube_download := youtube_download X;
  open_error := open_error X;
  requests_get := fun _ _ => inl (Exn "ConnectionError" (str "connection refused"));
  time_time := time_time X;
  strftime_now := strftime_now X;
  uuid4 := uuid4 X;
  genai_configure_error := genai_configure_error X;
  genai_upload_file := genai_upload_file X;
  genai_generate := genai_generate X;
  pdf_new_error := pdf_new_error X;
  pdf_add_section_error := pdf_add_section_error X;
  pdf_save := pdf_save X
|}.

(** A world whose storage holds one recording, [/data/talk.wav]. *)
Definition talk_world : world :=
  set_files (insert (str "/data/talk.wav") [82; 73; 70; 70]) empty_world.

(** A [CitraIlmu] object with the default model and no key. *)
Definition plain_self : citrailmu := CitraIlmu (str "gemini-1.5-flash-8b") None.

(** What [__is_url] asks of the text after the scheme: one character of
    [[-\w.]], or a percent sign and two hexadecimal digits. *)
Definition url_head (U : unicode_db) (rest : pystr) : bool :=
  match rest with
  | c :: t =>
      (c =? 45) || is_word U c || (c =? 46)
      || ((c =? 37)
          && match t with
             | h1 :: h2 :: _ => is_hex U h1 && is_hex U h2
             | _ => false
             end)
  | [] => false
  end.

(** The heads a string may begin with for [__is_youtube_url]: an optional
    scheme, an optional [www.], one of three names, a dot, one of two
    top-level domains, a slash. *)
Definition youtube_heads : list pystr :=
  scheme ← [[]; str "http://"; str "https://"];
  www ← [[]; str "www."];
  host ← [str "youtube"; str "youtu"; str "youtube-nocookie"];
  tld ← [str "com"; str "be"];
  [scheme ++ www ++ host ++ str "." ++ tld ++ str "/"].

(** Line 62: the path [__compress_audio] writes to. *)
Definition mp3_path_of (U : unicode_db) (X : collaborators) (filepath : pystr) : pystr :=
  path_join (gettempdir X) (sanitized_stem U filepath ++ str ".mp3").

(** What [os.path.join(a, b)] puts before a relative [b]. *)
Definition join_prefix (a : pystr) : pystr :=
  match last a with
  | None => []
  | Some c => if c =? 47 then a else a ++ str "/"
  end.

(** A log line that carries the task id [tid]. *)
Definition carries (tid : pystr) (e : level * pystr) : Prop :=
  startswith (str "[" ++ tid ++ str "] ") e.2 = true.

(** From [w] to [w']: the log only grew, by lines that carry [tid], and no
    decoder process is open that was not open before. *)
Definition quiet (tid : pystr) (w w' : world) : Prop :=
  (exists es, logged w' = logged w ++ es /\ Forall (carries tid) es)
  /\ readers w' ⊆ readers w.

(** A world whose storage already holds a compressed file,
    [/tmp/talk.mp3]. *)
Definition mp3_world : world :=
  set_files (insert (str "/tmp/talk.mp3") [73; 68; 51]) empty_world.

(** The characters of a decimal numeral: a digit, or the minus sign. *)
Definition is_digit_or_minus (c : N) : bool := (c =? 45) || in_range 48 57 c.

(** * Properties *)

(** ** The matcher against the language of a pattern *)

Section Matcher.

Context {A : Type}.
Implicit Types (k : pystr -> option A) (s : pystr).

Lemma star_loop_sound (body : pystr -> (pystr -> option A) -> option A) (P : pystr -> Prop) :
  (forall s k x, body s k = Some x -> exists p s', s = p ++ s' /\ P p /\ k s' = Some x) ->
  forall n s k x, star_loop body k n s = Some x ->
    exists ps s', s = concat ps ++ s' /\ Forall (fun p => p <> [] /\ P p) ps /\ k s' = Some x.
Proof.
  intros Hbody n. induction n as [|n IH]; intros s k x; simpl.
  - intros Hk. exists [], s. auto.
  - destruct (body s _) as [y|] eqn:Hb.
    + intros [= ->]. apply Hbody in Hb as (p & s1 & -> & Hp & Hk).
      destruct (length s1 <? length (p ++ s1))%nat eqn:Hlt; [|discriminate].
      apply IH in Hk as (ps & s2 & -> & Hps & Hk).
      exists (p :: ps), s2. simpl. rewrite <- app_assoc. split; [done|]. split; [|done].
      constructor; [|done]. split; [|done].
      intros ->. apply Nat.ltb_lt in Hlt. simpl in Hlt. lia.
    + intros Hk. exists [], s. auto.
Qed.

Lemma lang_star_concat r ps :
  Forall (fun p => p <> [] /\ lang r p) ps -> lang (Star r) (concat ps).
Proof.
  induction 1 as [|p ps [Hne Hp] _ IH]; simpl; [constructor|].
  by constructor.
Qed.

Lemma re_run_sound r : forall s k x,
  re_run r s k = Some x -> exists p s', s = p ++ s' /\ lang r p /\ k s' = Some x.
Proof.
  induction r as [|p|r1 IH1 r2 IH2|r1 IH1 r2 IH2|r IH]; intros s k x; simpl.
  - intros Hk. exists [], s. repeat split; [constructor|done].
  - destruct s as [|c t]; [done|]. destruct (p c) eqn:Hp; [|done].
    intros Hk. exists [c], t. repeat split; [by constructor|done].
  - intros H. apply IH1 in H as (a & s1 & -> & Ha & H).
    apply IH2 in H as (b & s2 & -> & Hb & H).
    exists (a ++ b), s2. rewrite <- app_assoc. repeat split; [by constructor|done].
  - destruct (re_run r1 s k) as [y|] eqn:H1.
    + intros [= ->]. apply IH1 in H1 as (a & s1 & -> & Ha & H).
      exists a, s1. repeat split; [by apply lang_alt_l|done].
    + intros H. apply IH2 in H as (a & s1 & -> & Ha & H).
      exists a, s1. repeat split; [by apply lang_alt_r|done].
  - intros H. apply (star_loop_sound _ (lang r) IH) in H as (ps & s' & -> & Hps & Hk).
    exists (concat ps), s'. repeat split; [by apply lang_star_concat|done].
Qed.

(** What the matcher hands to its continuation is a suffix of the subject. *)
Lemma re_run_suffix r s k x :
  re_run r s k = Some x -> exists s', (length s' <= length s)%nat /\ k s' = Some x.
Proof.
  intros H. apply re_run_sound in H as (p & s' & -> & _ & Hk).
  exists s'. rewrite length_app. split; [lia|done].
Qed.

Lemma star_loop_more (body : pystr -> (pystr -> option A) -> option A) k n s :
  is_Some (k s) -> is_Some (star_loop body k n s).
Proof.
  intros Hk. destruct n as [|n]; simpl; [done|].
  by destruct (body s _).
Qed.

End Matcher.

Section MatcherComplete.

Context {A : Type}.
Implicit Types (k : pystr -> option A) (s : pystr).

Lemma star_loop_mono (body : pystr -> (pystr -> option A) -> option A) :
  (forall s k1 k2, (forall s', is_Some (k1 s') -> is_Some (k2 s')) ->
     is_Some (body s k1) -> is_Some (body s k2)) ->
  forall n m s k1 k2, (n <= m)%nat ->
    (forall s', is_Some (k1 s') -> is_Some (k2 s')) ->
    is_Some (star_loop body k1 n s) -> is_Some (star_loop body k2 m s).
Proof.
  intros Hbody n. induction n as [|n IH]; intros m s k1 k2 Hle Hk; simpl.
  - intros H. apply star_loop_more. auto.
  - destruct m as [|m]; [lia|]. simpl.
    destruct (body s (fun s' => if (length s' <? length s)%nat
                                then star_loop body k1 n s' else None)) as [y|] eqn:Hb.
    + intros _.
      assert (is_Some (body s (fun s' => if (length s' <? length s)%nat
                                         then star_loop body k2 m s' else None))) as [z ->].
      { eapply Hbody; [|by rewrite Hb]. intros s'. simpl.
        destruct (length s' <? length s)%nat; [|done]. apply IH; [lia|done]. }
      done.
    + intros H.
      match goal with |- is_Some (match ?b with _ => _ end) => destruct b end; auto.
Qed.

Lemma re_run_mono r : forall s k1 k2,
  (forall s', is_Some (k1 s') -> is_Some (k2 s')) ->
  is_Some (re_run r s k1) -> is_Some (re_run r s k2).
Proof.
  induction r as [|p|r1 IH1 r2 IH2|r1 IH1 r2 IH2|r IH]; intros s k1 k2 Hk; simpl.
  - apply Hk.
  - destruct s as [|c t]; [done|]. destruct (p c); [apply Hk|done].
  - apply IH1. intros s'. by apply IH2.
  - destruct (re_run r1 s k1) eqn:H1.
    + intros _. destruct (IH1 s k1 k2 Hk) as [z ->]; [by rewrite H1|done].
    + intros H. destruct (re_run r1 s k2); [done|]. by apply (IH2 s k1).
  - by apply star_loop_mono.
Qed.

Lemma re_run_complete r p :
  lang r p -> forall s' k, is_Some (k s') -> is_Some (re_run r (p ++ s') k).
Proof.
  induction 1 as [|p c Hp|r1 r2 a b _ IH1 _ IH2|r1 r2 a _ IH|r1 r2 a _ IH
                  |r|r a b Hne _ IHa _ IHb]; intros s' k Hk; simpl.
  - done.
  - by rewrite Hp.
  - rewrite <- app_assoc. apply IH1. by apply IH2.
  - destruct (re_run r1 (a ++ s') k) eqn:H1; [done|].
    specialize (IH s' k Hk). rewrite H1 in IH. by destruct IH.
  - destruct (re_run r1 (a ++ s') k); [done|]. by apply IH.
  - by apply star_loop_more.
  - rewrite <- app_assoc.
    destruct a as [|c a]; [done|]. simpl.
    match goal with |- is_Some (match ?b with _ => _ end) => destruct b eqn:Hb end; [done|].
    exfalso.
    assert (is_Some (re_run r ((c :: a) ++ b ++ s')
      (fun s1 => if (length s1 <? S (length (a ++ b ++ s')))%nat
                 then star_loop (re_run r) k (length (a ++ b ++ s')) s1 else None))) as Hs.
    { apply IHa.
      replace (length (b ++ s') <? S (length (a ++ b ++ s')))%nat with true
        by (symmetry; apply Nat.ltb_lt; rewrite !length_app; lia).
      specialize (IHb s' k Hk). simpl in IHb.
      eapply (star_loop_mono (re_run r)); [apply re_run_mono| |by eauto|exact IHb].
      rewrite !length_app. lia. }
    simpl in Hs. rewrite Hb in Hs. by destruct Hs.
Qed.

End MatcherComplete.

(** [re.match] decides the language of the pattern. *)
Lemma re_match_spec r s : re_match r s = true <-> matches r s.
Proof.
  unfold re_match, match_at, matches. split.
  - destruct (re_run r s _) as [x|] eqn:H; [|done]. intros _.
    apply re_run_sound in H as (p & s' & -> & Hp & _). eauto.
  - intros (p & rest & -> & Hp).
    destruct (re_run_complete r p Hp rest (fun rest0 =>
      if false && (length rest0 =? length (p ++ rest))%nat then None else Some rest0))
      as [x ->]; done.
Qed.

(** ** The scan of [re.sub] *)

Lemma match_at_shorter r ma s rest :
  match_at r ma s = Some rest ->
  (length rest <= length s)%nat /\ (ma = true -> length rest <> length s).
Proof.
  unfold match_at. intros H.
  apply re_run_suffix in H as (s' & Hle & Hk).
  destruct ma; simpl in Hk.
  - destruct (length s' =? length s)%nat eqn:He; [done|].
    injection Hk as <-. apply Nat.eqb_neq in He. done.
  - injection Hk as <-. done.
Qed.

(** The fuel of the scan is enough: more does not change the answer. *)
Lemma sub_loop_fuel r repl : forall f1 f2 ma s,
  (2 * length s + (if ma : bool then 0 else 1) < f1)%nat ->
  (2 * length s + (if ma : bool then 0 else 1) < f2)%nat ->
  sub_loop f1 r repl ma s = sub_loop f2 r repl ma s.
Proof.
  induction f1 as [|f1 IH]; intros f2 ma s H1 H2; [lia|].
  destruct f2 as [|f2]; [lia|]. simpl.
  destruct (match_at r ma s) as [rest|] eqn:Hm.
  - apply match_at_shorter in Hm as [Hle Hne]. f_equal.
    destruct (length rest =? length s)%nat eqn:He.
    + apply Nat.eqb_eq in He. destruct ma; [by destruct Hne|].
      apply IH; lia.
    + apply Nat.eqb_neq in He. apply IH; destruct ma; lia.
  - destruct s as [|c t]; [done|]. f_equal. simpl in *. apply IH; destruct ma; lia.
Qed.

(** One step of [re.sub] for a pattern that does not match the empty
    string. *)
Lemma re_sub_step r repl s :
  (forall s' rest, match_at r false s' = Some rest -> (length rest < length s')%nat) ->
  re_sub r repl s =
    match match_at r false s with
    | Some rest => repl ++ re_sub r repl rest
    | None => match s with
              | [] => []
              | c :: t => c :: re_sub r repl t
              end
    end.
Proof.
  intros Hne. unfold re_sub.
  replace (2 * length s + 2)%nat with (S (2 * length s + 1)) by lia. simpl.
  destruct (match_at r false s) as [rest|] eqn:Hm.
  - apply Hne in Hm. f_equal.
    replace (length rest =? length s)%nat with false
      by (symmetry; apply Nat.eqb_neq; lia).
    apply sub_loop_fuel; lia.
  - destruct s as [|c t]; [done|]. f_equal. apply sub_loop_fuel; simpl; lia.
Qed.

Lemma match_at_cls p ma s :
  match_at (Cls p) ma s =
    match s with
    | c :: t => if p c then Some t else None
    | [] => None
    end.
Proof.
  unfold match_at. simpl. destruct s as [|c t]; [done|].
  destruct (p c); [|done].
  destruct ma; [|done]. simpl.
  destruct (Nat.eqb_spec (length t) (S (length t))); [lia|done].
Qed.

(** Substituting for a character class is a map over the characters. *)
Lemma re_sub_cls p (c0 : N) s :
  re_sub (Cls p) [c0] s = map (fun c => if p c then c0 else c) s.
Proof.
  induction s as [s IH] using (induction_ltof1 _ (@length N)); unfold ltof in *.
  rewrite re_sub_step.
  - rewrite match_at_cls. destruct s as [|c t]; [done|]. simpl.
    destruct (p c); simpl; f_equal; apply IH; simpl; lia.
  - intros s' rest. rewrite match_at_cls. destruct s' as [|c t]; [done|].
    destruct (p c); [|done]. intros [= ->]. simpl. lia.
Qed.

Lemma sanitize_map U s : sanitize U s = map (sanitize_char U) s.
Proof.
  unfold sanitize, unsafe_char. change (str "_") with [95].
  rewrite re_sub_cls. apply map_ext. intros c. unfold sanitize_char.
  by destruct (is_word U c || (c =? 45)).
Qed.

Lemma sanitize_char_kept U c :
  is_word U (sanitize_char U c) || (sanitize_char U c =? 45) = true.
Proof.
  unfold sanitize_char. destruct (is_word U c || (c =? 45)) eqn:H; [done|].
  reflexivity.
Qed.

Lemma sanitize_char_idem U c : sanitize_char U (sanitize_char U c) = sanitize_char U c.
Proof.
  unfold sanitize_char at 1. by rewrite sanitize_char_kept.
Qed.

Lemma is_word_ascii U c : is_ascii c = true -> is_word U c || (c =? 45) = is_safe c.
Proof. unfold is_word, is_safe. by intros ->. Qed.

(** C10.  Sanitizing is idempotent: for every string [s] (and whatever
    the Unicode tables say), [sanitize (sanitize s) = sanitize s], where
    [sanitize] is [re.sub(r'[^\w\-]', '_', s)] of line 61. *)
Theorem sanitize_idempotent (U : unicode_db) (s : pystr) :
  sanitize U (sanitize U s) = sanitize U s.
Proof.
  rewrite !sanitize_map, map_map. apply map_ext. intros c. apply sanitize_char_idem.
Qed.

(** ** Sanitized names *)

Lemma splitext_root_subseteq p : splitext_root p ⊆ p.
Proof.
  unfold splitext_root.
  destruct (rfind 47 p <? rfind 46 p)%Z; [|done].
  destruct (has_non_dot _); [|done]. apply subseteq_take.
Qed.

Lemma sanitize_char_safe U c :
  is_safe (sanitize_char U c) = true
  \/ (sanitize_char U c = c /\ is_ascii c = false /\ alnum U c = true).
Proof.
  unfold sanitize_char. destruct (is_ascii c) eqn:Ha.
  - left. rewrite is_word_ascii by done. by destruct (is_safe c) eqn:Hs.
  - unfold is_word. rewrite Ha.
    destruct (alnum U c) eqn:Hw; simpl; [by right|].
    destruct (c =? 45) eqn:H45; [|by left].
    apply N.eqb_eq in H45 as ->. done.
Qed.

(** ** Classification *)

Lemma is_youtube_url_spec s : is_youtube_url s = true <-> matches youtube_regex s.
Proof. apply re_match_spec. Qed.

Lemma classify_cases U w s :
  classify U w s =
    if path_isfile w s then LocalFile
    else if is_youtube_url s then StreamingUrl
    else if is_url U s then GenericUrl
    else Invalid.
Proof. reflexivity. Qed.

(** C4 as amended.  A string that matches the pattern of [__is_youtube_url]
    as written (case-sensitively) and is not the path of an existing file
    classifies as [StreamingUrl]; when they are not paths of existing
    files, ["youtube.com/watch?v=x"] is a [StreamingUrl],
    ["http://example.com/a.mp4"] a [GenericUrl] and ["/tmp/missing.mp4"]
    is [Invalid]. *)
Theorem classify_streaming_url (U : unicode_db) (w : world) (s : pystr)
    (Hfile : path_isfile w s = false) :
  (matches youtube_regex s -> classify U w s = StreamingUrl)
  /\ (s = str "youtube.com/watch?v=x" -> classify U w s = StreamingUrl)
  /\ (s = str "http://example.com/a.mp4" -> classify U w s = GenericUrl)
  /\ (s = str "/tmp/missing.mp4" -> classify U w s = Invalid).
Proof.
  rewrite classify_cases, Hfile. repeat split.
  - intros Hm. apply is_youtube_url_spec in Hm. by rewrite Hm.
  - by intros ->.
  - by intros ->.
  - by intros ->.
Qed.

Lemma classify_streaming_url_witness :
  path_isfile empty_world (str "https://www.youtube.com/watch?v=x") = false
  /\ matches youtube_regex (str "https://www.youtube.com/watch?v=x")
  /\ classify ascii_db empty_world (str "https://www.youtube.com/watch?v=x") = StreamingUrl.
Proof.
  assert (path_isfile empty_world (str "https://www.youtube.com/watch?v=x") = false)
    as Hfile by reflexivity.
  assert (matches youtube_regex (str "https://www.youtube.com/watch?v=x")) as Hm
    by (apply re_match_spec; reflexivity).
  split; [exact Hfile|]. split; [exact Hm|].
  exact (proj1 (classify_streaming_url ascii_db empty_world _ Hfile) Hm).
Defined.

(** C4 as stated fails twice: the code's pattern is case-sensitive, so
    ["YouTube.com/watch?v=x"], which matches when case is ignored, is
    [Invalid]; and a matching string that is the path of an existing file
    is a [LocalFile]. *)
Lemma classify_streaming_url_counterexample :
  (matches_ignore_case youtube_regex (str "YouTube.com/watch?v=x")
   /\ forall U, classify U empty_world (str "YouTube.com/watch?v=x") = Invalid)
  /\ (matches youtube_regex (str "youtube.com/watch")
      /\ forall U, classify U (set_files (insert (str "youtube.com/watch") []) empty_world)
                     (str "youtube.com/watch") = LocalFile).
Proof.
  repeat split.
  - apply re_match_spec. reflexivity.
  - apply re_match_spec. reflexivity.
Qed.

(** ** Cleaning of the model's answer *)

#[local] Arguments N.eqb : simpl never.

Lemma alpha_not_nl c : is_alpha c = true -> (10 =? c) = false.
Proof.
  unfold is_alpha, is_upper, is_lower, in_range. intros H.
  apply N.eqb_neq. intros <-. done.
Qed.

Lemma star_alpha_nl : forall t n,
  (length t <= n)%nat ->
  star_loop (re_run (Cls is_alpha))
    (fun s' => re_run (Chr 10) s' (fun rest => Some rest)) n t
  = expect_nl (skip_alpha t).
Proof.
  induction t as [|c t IH]; intros n Hn.
  - destruct n; reflexivity.
  - destruct n as [|n]; [simpl in Hn; lia|].
    cbn [star_loop re_run skip_alpha]. destruct (is_alpha c) eqn:Hc.
    + replace (length t <? length (c :: t))%nat with true
        by (symmetry; apply Nat.ltb_lt; simpl; lia).
      rewrite IH by (simpl in Hn; lia).
      destruct (expect_nl (skip_alpha t)); [done|].
      unfold Chr. cbn [re_run]. by rewrite alpha_not_nl.
    + reflexivity.
Qed.

Lemma fence_lit : Lit (str "```") = Seq (Chr 96) (Seq (Chr 96) (Seq (Chr 96) Eps)).
Proof. reflexivity. Qed.

Lemma match_at_fence_open s :
  match_at fence_open_regex false s =
    match s with
    | a :: b :: c :: t =>
        if (96 =? a) && (96 =? b) && (96 =? c) then expect_nl (skip_alpha t) else None
    | _ => None
    end.
Proof.
  unfold match_at, fence_open_regex. rewrite fence_lit.
  destruct s as [|a [|b [|c t]]]; cbn -[N.eqb].
  - done.
  - by destruct (96 =? a).
  - by destruct (96 =? a), (96 =? b).
  - destruct (96 =? a), (96 =? b), (96 =? c); try done. cbn -[N.eqb].
    apply (star_alpha_nl t (length t)). done.
Qed.

Lemma match_at_fence s :
  match_at fence_regex false s =
    match s with
    | a :: b :: c :: t =>
        if (96 =? a) && (96 =? b) && (96 =? c)
        then match expect_nl t with Some rest => Some rest | None => Some t end
        else None
    | _ => None
    end.
Proof.
  unfold match_at, fence_regex. rewrite fence_lit.
  destruct s as [|a [|b [|c t]]]; cbn -[N.eqb].
  - done.
  - by destruct (96 =? a).
  - by destruct (96 =? a), (96 =? b).
  - by destruct (96 =? a), (96 =? b), (96 =? c).
Qed.

Lemma expect_nl_length s rest : expect_nl s = Some rest -> length s = S (length rest).
Proof.
  destruct s as [|c t]; [done|]. simpl. destruct (10 =? c); [|done]. by intros [= ->].
Qed.

Lemma skip_alpha_length s : (length (skip_alpha s) <= length s)%nat.
Proof.
  induction s as [|c t IH]; simpl; [done|]. destruct (is_alpha c); simpl; lia.
Qed.

Lemma strip_nl_length s : (length (strip_nl s) <= length s)%nat.
Proof.
  unfold strip_nl. destruct (expect_nl s) eqn:H; [|done].
  apply expect_nl_length in H. lia.
Qed.

Lemma fence_open_consumes s rest :
  match_at fence_open_regex false s = Some rest -> (length rest < length s)%nat.
Proof.
  rewrite match_at_fence_open. destruct s as [|a [|b [|c t]]]; try done.
  destruct (_ && _); [|done]. intros H%expect_nl_length.
  pose proof (skip_alpha_length t). simpl. lia.
Qed.

Lemma fence_consumes s rest :
  match_at fence_regex false s = Some rest -> (length rest < length s)%nat.
Proof.
  rewrite match_at_fence. destruct s as [|a [|b [|c t]]]; try done.
  destruct (_ && _); [|done]. destruct (expect_nl t) eqn:H.
  - intros [= ->]. apply expect_nl_length in H. simpl. lia.
  - intros [= ->]. simpl. lia.
Qed.

Lemma re_sub_nil r repl :
  match_at r false [] = None -> re_sub r repl [] = [].
Proof. intros H. unfold re_sub. simpl. by rewrite H. Qed.



(** A fence goes away, with the newline after it if there is one. *)
Lemma sub_fence_hit s :
  re_sub fence_regex [] (96 :: 96 :: 96 :: s) = re_sub fence_regex [] (strip_nl s).
Proof.
  rewrite re_sub_step by apply fence_consumes. rewrite match_at_fence.
  change (96 =? 96) with true. cbn [andb]. unfold strip_nl.
  by destruct (expect_nl s).
Qed.

Lemma sub_fence_miss c t :
  match_at fence_regex false (c :: t) = None ->
  re_sub fence_regex [] (c :: t) = c :: re_sub fence_regex [] t.
Proof.
  intros H. rewrite re_sub_step by apply fence_consumes. by rewrite H.
Qed.

Lemma startswith_fence s : startswith [96; 96; 96] s = (3 <=? lead s)%nat.
Proof.
  destruct s as [|a [|b [|c t]]]; simpl.
  - done.
  - change (96 =? a) with (N.eqb 96 a). by destruct (N.eqb 96 a).
  - by destruct (N.eqb 96 a), (N.eqb 96 b).
  - by destruct (N.eqb 96 a), (N.eqb 96 b), (N.eqb 96 c).
Qed.

Lemma match_at_fence_lead s :
  match_at fence_regex false s = None <-> (lead s < 3)%nat.
Proof.
  rewrite match_at_fence. destruct s as [|a [|b [|c t]]]; simpl.
  - split; [lia|done].
  - destruct (N.eqb 96 a); simpl; split; (lia || done).
  - destruct (N.eqb 96 a), (N.eqb 96 b); simpl; split; (lia || done).
  - destruct (N.eqb 96 a), (N.eqb 96 b), (N.eqb 96 c); simpl;
      try (split; (lia || done)).
    destruct (expect_nl t); split; (lia || done).
Qed.

Lemma contains_false_lead s :
  contains [96; 96; 96] s = false -> (lead s < 3)%nat.
Proof.
  destruct s as [|c t]; [simpl; lia|]. cbn [contains].
  intros [H _]%orb_false_elim. rewrite startswith_fence in H.
  by apply Nat.leb_gt in H.
Qed.

(** After the second substitution no fence is left, whatever the text. *)
Lemma sub_fence_no_fence s :
  contains [96; 96; 96] (re_sub fence_regex [] s) = false
  /\ (lead (re_sub fence_regex [] s) <= lead s)%nat.
Proof.
  induction s as [s IH] using (induction_ltof1 _ (@length N)); unfold ltof in *.
  destruct (match_at fence_regex false s) as [rest|] eqn:Hm.
  - assert (3 <= lead s)%nat as Hl.
    { destruct (Nat.le_gt_cases 3 (lead s)) as [|Hlt]; [done|].
      apply match_at_fence_lead in Hlt. congruence. }
    destruct s as [|a [|b [|c t]]]; simpl in Hl;
      repeat match type of Hl with
             | context [N.eqb 96 ?x] => destruct (N.eqb_spec 96 x); [subst|simpl in Hl; lia]
             end; try (simpl in Hl; lia).
    rewrite sub_fence_hit.
    destruct (IH (strip_nl t)) as [Hc Hle].
    { pose proof (strip_nl_length t). simpl. lia. }
    split; [done|]. apply contains_false_lead in Hc. simpl. lia.
  - pose proof Hm as Hlt. apply match_at_fence_lead in Hlt.
    destruct s as [|c t].
    + rewrite re_sub_nil by done. done.
    + rewrite sub_fence_miss by done.
      destruct (IH t) as [Hc Hle]; [simpl; lia|].
      assert (lead (c :: re_sub fence_regex [] t) <= lead (c :: t))%nat as Hle'.
      { simpl. destruct (N.eqb 96 c); lia. }
      split; [|done].
      cbn [contains]. rewrite Hc, orb_false_r.
      rewrite startswith_fence. apply Nat.leb_gt. lia.
Qed.

Lemma match_at_fence_open_lead s :
  (lead s < 3)%nat -> match_at fence_open_regex false s = None.
Proof.
  rewrite match_at_fence_open. destruct s as [|a [|b [|c t]]]; simpl; try done.
  destruct (N.eqb 96 a), (N.eqb 96 b), (N.eqb 96 c); simpl; (lia || done).
Qed.

Lemma lead_app b s : lead s = O -> lead (b ++ s) = lead b.
Proof.
  intros Hs. induction b as [|c b IH]; simpl; [done|]. by rewrite IH.
Qed.

Lemma contains_tail p c t : contains p (c :: t) = false -> contains p t = false.
Proof. cbn [contains]. by intros [_ H]%orb_false_elim. Qed.

(** Text without a fence is copied by both substitutions, up to a place
    where no backtick follows. *)
Lemma re_sub_plain (R : regex) (b s : pystr) :
  (forall s' rest, match_at R false s' = Some rest -> (length rest < length s')%nat) ->
  (forall x, (lead x < 3)%nat -> match_at R false x = None) ->
  contains [96; 96; 96] b = false -> lead s = O ->
  re_sub R [] (b ++ s) = b ++ re_sub R [] s.
Proof.
  intros Hne HR Hb Hs. induction b as [|c b IH]; [done|].
  rewrite re_sub_step by done.
  rewrite HR.
  - simpl. f_equal. apply IH. by eapply contains_tail.
  - rewrite lead_app by done. by apply contains_false_lead.
Qed.



(** ** [strip] keeps a piece of its argument *)

Lemma startswith_spec p s : startswith p s = true <-> exists b, s = p ++ b.
Proof.
  revert s. induction p as [|a p IH]; intros s; simpl.
  - split; [eauto|done].
  - destruct s as [|c s].
    + split; [done|]. by intros [b Hb].
    + rewrite andb_true_iff, N.eqb_eq, IH. split.
      * intros [-> [b ->]]. eauto.
      * intros [b [= -> ->]]. eauto.
Qed.

Lemma contains_spec p s : contains p s = true <-> exists a b, s = a ++ p ++ b.
Proof.
  induction s as [|c s IH]; cbn [contains]; rewrite orb_true_iff, startswith_spec.
  - split.
    + intros [[b Hb]|]; [|done]. exists [], b. done.
    + intros (a & b & H). left. destruct a; [by exists b|done].
  - rewrite IH. split.
    + intros [[b Hb]|(a & b & ->)]; [by exists [], b|]. by exists (c :: a), b.
    + intros (a & b & H). destruct a as [|a0 a]; [left; by exists b|].
      right. injection H as -> ->. eauto.
Qed.

Lemma lstrip_suffix s : exists a, s = a ++ lstrip s.
Proof.
  induction s as [|c s [a IH]]; simpl; [by exists []|].
  destruct (is_space c); [|by exists []].
  exists (c :: a). simpl. by f_equal.
Qed.

Lemma strip_infix s : exists a b, s = a ++ strip s ++ b.
Proof.
  unfold strip, rstrip.
  destruct (lstrip_suffix s) as [a Ha].
  destruct (lstrip_suffix (rev (lstrip s))) as [b Hb].
  exists a, (rev b). rewrite <- rev_app_distr, <- Hb, rev_involutive. done.
Qed.

Lemma contains_strip p s : contains p s = false -> contains p (strip s) = false.
Proof.
  intros H. destruct (contains p (strip s)) eqn:Hc; [|done].
  apply contains_spec in Hc as (x & y & Hxy).
  destruct (strip_infix s) as (a & b & Hab).
  assert (contains p s = true); [|congruence].
  apply contains_spec. exists (a ++ x), (y ++ b).
  rewrite Hab at 1. rewrite Hxy. by rewrite <- !app_assoc.
Qed.





(** ** Programs *)

#[local] Arguments str : simpl never.
#[local] Arguments tagged : simpl never.
#[local] Arguments path_join : simpl never.
#[local] Arguments sanitized_stem : simpl never.
#[local] Arguments clean_markdown : simpl never.
#[local] Arguments lower : simpl never.
#[local] Arguments format_duration : simpl never.
#[local] Arguments add_log : simpl never.
#[local] Arguments tick : simpl never.
#[local] Arguments open_reader : simpl never.
#[local] Arguments close_reader : simpl never.
#[local] Arguments set_files : simpl never.
#[local] Arguments path_isfile : simpl never.

Ltac prog_unfold :=
  unfold mbind, mret, prog_bind, prog_ret, try_except, try_finally, with_var,
    lift, get_var, set_var, read_local, modify, gets, call, call_unit, ask, raise,
    logger_info, logger_error, os_path_isfile, os_path_exists, write_file in *.

Section Compress.

Context (U : unicode_db) (X : collaborators).

Lemma compress_audio_run filepath tid w :
  let w1 := add_log (INFO, tagged tid (str "Compressing audio: " ++ filepath)) w in
  let temp_path := path_join (gettempdir X) (sanitized_stem U filepath ++ str ".mp3") in
  let fail e w2 :=
    (Ret None, add_log (ERROR, tagged tid (str "Audio compression failed: " ++ exn_msg e)) w2) in
  compress_audio U X filepath tid w =
    match audio_open X filepath w1 with
    | inl e => fail e (tick w1)
    | inr d =>
        let c := Clip (next_reader w1) d in
        let w2 := open_reader (tick w1) in
        match audio_fadeout_error X c w2 with
        | Some e => fail e (close_reader (clip_reader c) (tick w2))
        | None =>
            let w3 := tick w2 in
            match audio_encode X c temp_path w3 with
            | inl e => fail e (close_reader (clip_reader c) (tick w3))
            | inr data =>
                (Ret (Some temp_path),
                 close_reader (clip_reader c) (set_files (insert temp_path data) (tick w3)))
            end
        end
    end.
Proof.
  intros w1 temp_path fail.
  unfold compress_audio, AudioFileClip, audio_fadeout, write_audiofile, clip_close.
  prog_unfold. cbn.
  fold w1. destruct (audio_open X filepath w1) as [e|d]; [reflexivity|]. cbn.
  destruct (audio_fadeout_error X _ _) as [e|]; [reflexivity|]. cbn.
  fold temp_path.
  destruct (audio_encode X _ _ _) as [e|data]; reflexivity.
Qed.

Lemma readers_closed_sub (R : gset N) (n : N) : ({[n]} ∪ R) ∖ {[n]} ⊆ R.
Proof.
  intros x. rewrite elem_of_difference, elem_of_union. intros [[Hx|Hx] Hn]; done.
Qed.

Lemma readers_closed_sup (R : gset N) (n : N) : R ∖ {[n]} ⊆ ({[n]} ∪ R) ∖ {[n]}.
Proof.
  intros x. rewrite !elem_of_difference, elem_of_union. intros [Hx Hn]. auto.
Qed.

(** [__compress_audio] never raises. *)
Lemma compress_audio_returns filepath tid w :
  exists r w', compress_audio U X filepath tid w = (Ret r, w').
Proof.
  rewrite compress_audio_run. cbv zeta.
  destruct (audio_open X _ _); [eauto|].
  destruct (audio_fadeout_error X _ _); [eauto|].
  destruct (audio_encode X _ _ _); eauto.
Qed.

(** C6.  Whatever the decoder and the encoder do, [__compress_audio]
    returns without raising, and the decoder process it opened (the one
    numbered [next_reader w]) is closed by then: no exit path leaves it
    open, and no other reader is touched.  It answers a path exactly when
    opening, fading and encoding all succeeded; otherwise it logs
    [Audio compression failed] tagged with the task id and answers
    [None]. *)
Theorem compress_audio_releases_decoder (filepath tid : pystr) (w : world) :
  let w1 := add_log (INFO, tagged tid (str "Compressing audio: " ++ filepath)) w in
  let temp_path := path_join (gettempdir X) (sanitized_stem U filepath ++ str ".mp3") in
  exists r w',
    compress_audio U X filepath tid w = (Ret r, w')
    /\ readers w' ⊆ readers w
    /\ readers w ∖ {[next_reader w]} ⊆ readers w'
    /\ (r = Some temp_path /\ logged w' = logged w1
        /\ (exists d data,
              audio_open X filepath w1 = inr d
              /\ audio_fadeout_error X (Clip (next_reader w) d) (open_reader (tick w1)) = None
              /\ audio_encode X (Clip (next_reader w) d) temp_path
                   (tick (open_reader (tick w1))) = inr data
              /\ files w' !! temp_path = Some data)
        \/ r = None
           /\ (exists e, logged w' = logged w1
                 ++ [(ERROR, tagged tid (str "Audio compression failed: " ++ exn_msg e))])
           /\ (forall d data,
                 audio_open X filepath w1 = inr d ->
                 audio_fadeout_error X (Clip (next_reader w) d) (open_reader (tick w1)) = None ->
                 audio_encode X (Clip (next_reader w) d) temp_path
                   (tick (open_reader (tick w1))) = inr data -> False)).
Proof.
  intros w1 temp_path. rewrite compress_audio_run. fold w1 temp_path. cbv zeta.
  change (next_reader w1) with (next_reader w).
  destruct (audio_open X filepath w1) as [e|d] eqn:Ho.
  { eexists _, _. split; [reflexivity|]. split; [done|].
    split; [apply subseteq_difference_l; done|].
    right. split; [done|]. split; [by exists e|]. intros ? ? [=]. }
  destruct (audio_fadeout_error X _ _) as [e|] eqn:Hf.
  { eexists _, _. split; [reflexivity|].
    split; [apply readers_closed_sub|]. split; [apply readers_closed_sup|].
    right. split; [done|]. split; [by exists e|].
    intros ? ? [= <-]. by rewrite Hf. }
  destruct (audio_encode X _ _ _) as [e|data] eqn:He.
  { eexists _, _. split; [reflexivity|].
    split; [apply readers_closed_sub|]. split; [apply readers_closed_sup|].
    right. split; [done|]. split; [by exists e|].
    intros ? ? [= <-] _. by rewrite He. }
  eexists _, _. split; [reflexivity|].
  split; [apply readers_closed_sub|]. split; [apply readers_closed_sup|].
  left. split; [done|]. split; [done|].
  exists d, data. split; [done|]. split; [done|]. split; [done|].
  unfold close_reader, set_files. cbn. apply lookup_insert_eq.
Qed.

(** The download is gone once [compress_and_discard] is over, and the
    answer is that of the compression. *)
Lemma compress_and_discard_run downloaded tid w :
  exists r w2 w',
    compress_audio U X downloaded tid w = (Ret r, w2)
    /\ compress_and_discard U X downloaded tid w = (Ret r, w')
    /\ files w' !! downloaded = None
    /\ logged w' = logged w2.
Proof.
  destruct (compress_audio_returns downloaded tid w) as (r & w2 & Hc).
  exists r, w2. unfold compress_and_discard, os_unlink. prog_unfold. rewrite Hc. cbn.
  unfold path_isfile. case_bool_decide as Hthere.
  - rewrite bool_decide_true by done. eexists. repeat split.
    unfold set_files. cbn. apply lookup_delete_eq.
  - eexists. repeat split. by apply eq_None_not_Some.
Qed.

End Compress.

Section Acquire.

Context (U : unicode_db) (X : collaborators).


(** [__process_web_url] after a download that succeeded. *)
Lemma process_web_url_downloaded url tid w p w2 :
  web_fetch X url
    (add_log (INFO, tagged tid (str "Processing web URL: " ++ url)) w) = (Ret p, w2) ->
  process_web_url U X url tid w = compress_and_discard U X p tid w2.
Proof.
  intros Hf. destruct (compress_and_discard_run U X p tid w2) as (r & w3 & w' & _ & Hd & _).
  unfold process_web_url. prog_unfold. cbn. rewrite Hf. cbn. by rewrite Hd.
Qed.

Lemma process_youtube_returns url tid w :
  exists r w', process_youtube U X url tid w = (Ret r, w').
Proof.
  unfold process_youtube. prog_unfold. cbn.
  destruct (youtube_fetch X url tid _) as [[p|e] w2]; [|eauto].
  destruct (compress_and_discard_run U X p tid w2) as (r & w3 & w' & _ & -> & _). eauto.
Qed.

Lemma process_web_url_returns url tid w :
  exists r w', process_web_url U X url tid w = (Ret r, w').
Proof.
  unfold process_web_url. prog_unfold. cbn.
  destruct (web_fetch X url _) as [[p|e] w2]; [|eauto].
  destruct (compress_and_discard_run U X p tid w2) as (r & w3 & w' & _ & -> & _). eauto.
Qed.

(** [__media_processor] runs the branch that [classify] names; its own
    handler is never reached, since no branch raises. *)
Lemma media_processor_dispatch input tid w :
  media_processor U X input tid w =
    match classify U w input with
    | LocalFile => compress_audio U X input tid w
    | StreamingUrl => process_youtube U X input tid w
    | GenericUrl => process_web_url U X input tid w
    | Invalid =>
        (Ret None,
         add_log (ERROR, tagged tid (str "Invalid input: not a file path or URL")) w)
    end.
Proof.
  unfold media_processor, classify. prog_unfold. cbn.
  destruct (path_isfile w input).
  - by destruct (compress_audio_returns U X input tid w) as (r & w' & ->).
  - destruct (is_youtube_url input).
    + by destruct (process_youtube_returns input tid w) as (r & w' & ->).
    + destruct (is_url U input); [|done].
      by destruct (process_web_url_returns input tid w) as (r & w' & ->).
Qed.

(** [__media_processor] never raises. *)
Lemma media_processor_returns input tid w :
  exists r w', media_processor U X input tid w = (Ret r, w').
Proof.
  rewrite media_processor_dispatch. destruct (classify U w input); [| | |eauto].
  - apply compress_audio_returns.
  - apply process_youtube_returns.
  - apply process_web_url_returns.
Qed.


End Acquire.

(** ** The download of a generic URL *)

Section Web.

Context (U : unicode_db) (X : collaborators).

Lemma write_chunks_run path chunks : forall w content,
  files w !! path = Some content ->
  exists w', write_chunks path chunks w = (Ret tt, w')
    /\ files w' !! path = Some (content ++ concat chunks)
    /\ logged w' = logged w /\ readers w' = readers w.
Proof.
  induction chunks as [|chunk rest IH]; intros w content Hw; simpl.
  - exists w. rewrite app_nil_r. done.
  - unfold append_file. prog_unfold. cbn.
    edestruct (IH (set_files (fun fs => <[path:=default [] (fs !! path) ++ chunk]> fs) w))
      as (w' & -> & Hf & Hl & Hr).
    { unfold set_files. cbn. rewrite Hw. apply lookup_insert_eq. }
    exists w'. rewrite <- app_assoc in Hf. done.
Qed.

(** The temporary file of a web download carries the suffix [.mp4]. *)
Lemma web_temp_path_mp4 url w :
  exists name w',
    web_temp_path X url w = (Ret (path_join (gettempdir X) (name ++ str ".mp4")), w')
    /\ files w' = files w.
Proof.
  unfold web_temp_path. prog_unfold. cbn.
  destruct (basename (split_head 63 url)) as [|c b]; eauto.
Qed.

(** C7.  A generic URL is acquired by [__process_web_url]: on such an
    input [__media_processor] runs lines 132-139 and hands their outcome
    on.  The download goes to a file whose name ends in [.mp4]; once that
    file is open and the GET has answered, the file holds the chunks that
    iterating the response with chunk size 8192 yields when the status is
    200, and nothing at all when the status is anything else.  The
    compression that follows starts in the world where the file holds
    just that; when iterating the response raised, the acquisition
    answers [None] instead. *)
Theorem web_download_writes_on_200
    (url tid temp_path : pystr) (w w1 : world) (resp : response)
    (Hkind : classify U w url = GenericUrl)
    (Hpath : web_temp_path X url
               (add_log (INFO, tagged tid (str "Processing web URL: " ++ url)) w)
             = (Ret temp_path, w1))
    (Hopen : open_error X temp_path w1 = None)
    (Hget : requests_get X url (set_files (insert temp_path []) (tick w1)) = inr resp) :
  (exists name, temp_path = path_join (gettempdir X) (name ++ str ".mp4"))
  /\ exists r w2,
       web_fetch X url (add_log (INFO, tagged tid (str "Processing web URL: " ++ url)) w)
         = (r, w2)
       /\ (if (status_code resp =? 200)%Z
           then files w2 !! temp_path = Some (concat (iter_content resp 8192).1)
                /\ r = match (iter_content resp 8192).2 with
                       | Some e => Raise e
                       | None => Ret temp_path
                       end
           else files w2 !! temp_path = Some [] /\ r = Ret temp_path)
       /\ media_processor U X url tid w =
            match r with
            | Ret p => compress_and_discard U X p tid w2
            | Raise e =>
                (Ret None,
                 add_log (ERROR, tagged tid (str "URL processing failed: " ++ exn_msg e)) w2)
            end.
Proof.
  split.
  { destruct (web_temp_path_mp4 url
                (add_log (INFO, tagged tid (str "Processing web URL: " ++ url)) w))
      as (name & w1' & H & _).
    rewrite Hpath in H. injection H as -> _. by exists name. }
  set (w0 := add_log (INFO, tagged tid (str "Processing web URL: " ++ url)) w) in *.
  assert (forall r w2, web_fetch X url w0 = (r, w2) ->
            media_processor U X url tid w =
              match r with
              | Ret p => compress_and_discard U X p tid w2
              | Raise e =>
                  (Ret None,
                   add_log (ERROR, tagged tid
                     (str "URL processing failed: " ++ exn_msg e)) w2)
              end) as Hacquire.
  { intros r w2 Hf. rewrite media_processor_dispatch, Hkind.
    destruct r as [p|e]; [by apply process_web_url_downloaded|].
    unfold process_web_url, try_except. unfold logger_info at 1. prog_unfold. cbn.
    fold w0. by rewrite Hf. }
  assert (exists r w2,
            web_fetch X url w0 = (r, w2)
            /\ (if (status_code resp =? 200)%Z
                then files w2 !! temp_path = Some (concat (iter_content resp 8192).1)
                     /\ r = match (iter_content resp 8192).2 with
                            | Some e => Raise e
                            | None => Ret temp_path
                            end
                else files w2 !! temp_path = Some [] /\ r = Ret temp_path))
    as (r & w2 & Hf & Hcase).
  { unfold web_fetch, web_download. prog_unfold. rewrite Hpath. cbn.
    rewrite Hopen. cbn. rewrite Hget. cbn.
    destruct (status_code resp =? 200)%Z.
    - destruct (write_chunks_run temp_path (iter_content resp 8192).1
                  (tick (set_files (insert temp_path []) (tick w1))) [])
        as (w' & -> & Hfile & _).
      { unfold set_files, tick. cbn. apply lookup_insert_eq. }
      cbn. destruct (iter_content resp 8192).2; eauto.
    - eexists _, _. split; [reflexivity|]. split; [|done].
      unfold set_files, tick. cbn. apply lookup_insert_eq. }
  exists r, w2. split; [exact Hf|]. split; [exact Hcase|]. by apply Hacquire.
Qed.

(** An input that is neither a file nor a URL: [__media_processor] logs
    one error, answers [None], and storage is as it was. *)
Theorem invalid_input_creates_nothing (input tid : pystr) (w : world)
    (Hkind : classify U w input = Invalid) :
  exists w',
    media_processor U X input tid w = (Ret None, w')
    /\ files w' = files w
    /\ logged w' = logged w
         ++ [(ERROR, tagged tid (str "Invalid input: not a file path or URL"))].
Proof.
  rewrite media_processor_dispatch, Hkind. eauto.
Qed.

(** When the GET itself raises, [__process_web_url] answers [None] and
    the temporary file it had opened stays on storage, empty: the
    clean-up of lines 142-143 is not reached. *)
Theorem failed_get_leaves_temp_file (url tid temp_path : pystr) (w w1 : world) (e : exn)
    (Hpath : web_temp_path X url
               (add_log (INFO, tagged tid (str "Processing web URL: " ++ url)) w)
             = (Ret temp_path, w1))
    (Hopen : open_error X temp_path w1 = None)
    (Hget : requests_get X url (set_files (insert temp_path []) (tick w1)) = inl e) :
  exists w',
    process_web_url U X url tid w = (Ret None, w')
    /\ files w' !! temp_path = Some []
    /\ last (logged w')
       = Some (ERROR, tagged tid (str "URL processing failed: " ++ exn_msg e)).
Proof.
  unfold process_web_url, web_fetch, web_download. prog_unfold. cbn.
  rewrite Hpath. cbn. rewrite Hopen. cbn. rewrite Hget. cbn.
  eexists. split; [reflexivity|]. split.
  - unfold add_log, set_files, tick. cbn. apply lookup_insert_eq.
  - unfold add_log. cbn. apply last_snoc.
Qed.

End Web.

(** ** The AI stage and the PDF stage *)

Section Stages.

Context (U : unicode_db) (X : collaborators) (self : citrailmu).

(** [__aigc_processor] in terms of its two parts. *)
Lemma aigc_processor_run input lang mode tid w :
  let fail e w' :=
    (Ret None,
     add_log (ERROR, tagged tid (str "AI " ++ mode ++ str " processing failed: " ++ exn_msg e)) w') in
  let generate prompt w1 :=
    match aigc_generate X self input mode tid prompt w1 with
    | (Ret r, w2) => (Ret r, w2)
    | (Raise e, w2) => fail e w2
    end in
  aigc_processor U X self input lang mode tid w =
    match aigc_probe X self input w with
    | (Raise e, w1) => fail e w1
    | (Ret formatted_duration, w1) =>
        if bool_decide (lower U mode = str "analysis")
        then generate (prompt_analysis formatted_duration lang) w1
        else if bool_decide (lower U mode = str "transcript")
        then generate (prompt_transcript formatted_duration) w1
        else (Ret None,
              add_log (ERROR, tagged tid (str "Invalid processing mode: " ++ mode)) w1)
    end.
Proof.
  intros fail generate. unfold aigc_processor, try_except.
  unfold mbind at 1. unfold prog_bind at 1.
  destruct (aigc_probe X self input w) as [[fd|e] w1]; [|reflexivity].
  unfold generate.
  destruct (bool_decide (lower U mode = str "analysis")).
  { by destruct (aigc_generate _ _ _ _ _ _ _) as [[?|?] ?]. }
  destruct (bool_decide (lower U mode = str "transcript")).
  { by destruct (aigc_generate _ _ _ _ _ _ _) as [[?|?] ?]. }
  reflexivity.
Qed.

(** [__aigc_processor] never raises. *)
Lemma aigc_processor_returns input lang mode tid w :
  exists r w', aigc_processor U X self input lang mode tid w = (Ret r, w').
Proof.
  rewrite aigc_processor_run. cbv zeta.
  destruct (aigc_probe X self input w) as [[fd|e] w1]; [|eauto].
  destruct (bool_decide _).
  { destruct (aigc_generate _ _ _ _ _ _ _) as [[?|?] ?]; eauto. }
  destruct (bool_decide _); [|eauto].
  destruct (aigc_generate _ _ _ _ _ _ _) as [[?|?] ?]; eauto.
Qed.

(** With a mode that is neither of the two, the AI stage answers [None]
    and its last log line is an error tagged with the task id. *)
Lemma aigc_processor_invalid_mode input lang mode tid w :
  lower U mode <> str "analysis" -> lower U mode <> str "transcript" ->
  exists w',
    aigc_processor U X self input lang mode tid w = (Ret None, w')
    /\ match aigc_probe X self input w with
       | (Ret _, w1) =>
           w' = add_log (ERROR, tagged tid (str "Invalid processing mode: " ++ mode)) w1
       | (Raise e, w1) =>
           w' = add_log (ERROR, tagged tid
                  (str "AI " ++ mode ++ str " processing failed: " ++ exn_msg e)) w1
       end.
Proof.
  intros Ha Ht. rewrite aigc_processor_run. cbv zeta.
  destruct (aigc_probe X self input w) as [[fd|e] w1]; [|eauto].
  rewrite !bool_decide_false by done. eauto.
Qed.

(** [__markdown_to_pdf] never raises. *)
Lemma markdown_to_pdf_returns md orig lang mode tid w :
  exists r w', markdown_to_pdf U X md orig lang mode tid w = (Ret r, w').
Proof.
  unfold markdown_to_pdf, try_except.
  match goal with |- context [match ?b w with _ => _ end] => destruct (b w) as [[r|e] w'] end;
    [eauto|]. prog_unfold. eauto.
Qed.

(** A text that begins with [# ] leaves [title] unassigned: the PDF stage
    answers [None], and when the renderer itself did not raise, what it
    caught is the [UnboundLocalError] of the read of [title]. *)
Lemma markdown_to_pdf_heading md orig lang mode tid w :
  startswith (str "# ") md = true ->
  let w0 := add_log (INFO, tagged tid (str "Generating PDF: " ++ pdf_path_of U X orig lang mode)) w in
  exists e w1,
    markdown_to_pdf U X md orig lang mode tid w =
      (Ret None, add_log (ERROR, tagged tid (str "PDF generation failed: " ++ exn_msg e)) w1)
    /\ (pdf_new_error X w0 = None ->
        pdf_add_section_error X (PdfDoc 3 [] []) md css (tick w0) = None ->
        exn_type e = "UnboundLocalError"%string).
Proof.
  intros Hmd w0. unfold markdown_to_pdf, ensure_heading, MarkdownPdf, pdf_add_section.
  rewrite Hmd. prog_unfold. cbn. fold w0.
  destruct (pdf_new_error X w0) as [e|]; cbn; [by eexists _, _|].
  destruct (pdf_add_section_error X _ _ _ _) as [e|]; cbn; by eexists _, _.
Qed.

End Stages.

(** ** [process_media] *)

Section Pipeline_facts.

Context (U : unicode_db) (X : collaborators) (self : citrailmu).

Lemma path_join_nonempty a b : b <> [] -> path_join a b <> [].
Proof.
  intros Hb. unfold path_join. destruct (startswith _ b); [done|].
  destruct (last a) as [c|]; [|done].
  destruct (c =? 47); intros [_ H]%app_eq_nil; [done|].
  by apply app_eq_nil in H as [H _].
Qed.

Lemma present_nonempty p : p <> [] -> present (Some p) = Some p.
Proof. by destruct p. Qed.

Lemma compress_audio_present filepath tid w r w' :
  compress_audio U X filepath tid w = (Ret r, w') -> present r = r.
Proof.
  rewrite compress_audio_run. cbv zeta.
  destruct (audio_open X _ _); [by intros [= <- _]|].
  destruct (audio_fadeout_error X _ _); [by intros [= <- _]|].
  destruct (audio_encode X _ _ _); intros [= <- _]; [done|].
  apply present_nonempty, path_join_nonempty.
  intros [_ H]%app_eq_nil. done.
Qed.

Lemma compress_and_discard_present p tid w r w' :
  compress_and_discard U X p tid w = (Ret r, w') -> present r = r.
Proof.
  destruct (compress_and_discard_run U X p tid w) as (r0 & w2 & w3 & Hc & -> & _).
  intros [= <- _]. by eapply compress_audio_present.
Qed.

(** What [__media_processor] answers is a path that is not empty, or
    [None]. *)
Lemma media_processor_present input tid w r w' :
  media_processor U X input tid w = (Ret r, w') -> present r = r.
Proof.
  rewrite media_processor_dispatch. destruct (classify U w input).
  - apply compress_audio_present.
  - unfold process_youtube. prog_unfold. cbn.
    destruct (youtube_fetch X input tid _) as [[p|e] w2]; [|by intros [= <- _]].
    destruct (compress_and_discard U X p tid w2) as [[r0|e] w3] eqn:Hd;
      [|by intros [= <- _]].
    intros [= <- _]. by eapply compress_and_discard_present.
  - unfold process_web_url. prog_unfold. cbn.
    destruct (web_fetch X input _) as [[p|e] w2]; [|by intros [= <- _]].
    destruct (compress_and_discard U X p tid w2) as [[r0|e] w3] eqn:Hd;
      [|by intros [= <- _]].
    intros [= <- _]. by eapply compress_and_discard_present.
  - by intros [= <- _].
Qed.

(** [process_media] over any three stages, step by step: a stage that
    raises sends the run to the handler, which logs and answers
    [(None, None)]. *)
Lemma process_media_with_run acquire aigc to_pdf input lang mode w :
  let tid := task_id_of X w in
  let failed e w' :=
    (Ret (None, None), add_log (ERROR, tagged tid (str "Task failed: " ++ exn_msg e)) w') in
  process_media_with X acquire aigc to_pdf input lang mode w =
    match acquire input tid (task_world X lang mode w) with
    | (Raise e, w2) => failed e w2
    | (Ret r1, w2) =>
        match present r1 with
        | None => (Ret (None, None), w2)
        | Some compressed =>
            match aigc compressed lang mode tid w2 with
            | (Raise e, w3) => failed e w3
            | (Ret r2, w3) =>
                match present r2 with
                | None => (Ret (Some compressed, None), w3)
                | Some text =>
                    match to_pdf text compressed lang mode tid w3 with
                    | (Raise e, w4) => failed e w4
                    | (Ret r3, w4) =>
                        match present r3 with
                        | None => (Ret (Some compressed, None), w4)
                        | Some pdf =>
                            (Ret (Some compressed, Some pdf),
                             add_log (INFO, tagged tid (str "Task completed successfully")) w4)
                        end
                    end
                end
            end
        end
    end.
Proof.
  intros tid failed. unfold process_media_with, get_taskid. prog_unfold. cbn.
  fold (task_id_of X w). fold tid. fold (task_world X lang mode w).
  destruct (acquire input tid _) as [[[[|c1 cf]|]|e] w2]; try reflexivity. cbn.
  destruct (aigc (c1 :: cf) lang mode tid w2) as [[[[|c2 md]|]|e] w3]; try reflexivity. cbn.
  destruct (to_pdf (c2 :: md) (c1 :: cf) lang mode tid w3) as [[[[|c3 pf]|]|e] w4];
    reflexivity.
Qed.

(** C1.  [process_media] never raises.  Over any three stages, a stage
    that raises gives [(None, None)]; an acquisition that yields no file
    gives [(None, None)]; an AI stage or a PDF stage that yields nothing
    gives [(compressed, None)]; and [(compressed, pdf)] comes out only when
    all three yielded something.  The three stages of the module never
    raise themselves, so for [process_media] the answer is read off what
    they return. *)
Theorem process_media_partial_results (input lang mode : pystr) (w : world) :
  let tid := task_id_of X w in
  (forall acquire aigc to_pdf,
     exists c p w',
       process_media_with X acquire aigc to_pdf input lang mode w = (Ret (c, p), w')
       /\ match acquire input tid (task_world X lang mode w) with
          | (Raise _, _) => (c, p) = (None, None)
          | (Ret r1, w2) =>
              match present r1 with
              | None => (c, p) = (None, None)
              | Some compressed =>
                  match aigc compressed lang mode tid w2 with
                  | (Raise _, _) => (c, p) = (None, None)
                  | (Ret r2, w3) =>
                      match present r2 with
                      | None => (c, p) = (Some compressed, None)
                      | Some text =>
                          match to_pdf text compressed lang mode tid w3 with
                          | (Raise _, _) => (c, p) = (None, None)
                          | (Ret r3, _) => (c, p) = (Some compressed, present r3)
                          end
                      end
                  end
              end
          end)
  /\ exists c p w' w2,
       process_media U X self input lang mode w = (Ret (c, p), w')
       /\ media_processor U X input tid (task_world X lang mode w) = (Ret c, w2)
       /\ match c with
          | None => p = None
          | Some compressed =>
              exists r2 w3,
                aigc_processor U X self compressed lang mode tid w2 = (Ret r2, w3)
                /\ match present r2 with
                   | None => p = None
                   | Some text =>
                       exists r3 w4,
                         markdown_to_pdf U X text compressed lang mode tid w3 = (Ret r3, w4)
                         /\ p = present r3
                   end
          end.
Proof.
  intros tid. split.
  - intros acquire aigc to_pdf. rewrite process_media_with_run. fold tid. cbv zeta.
    destruct (acquire input tid _) as [[r1|e] w2]; [|eauto].
    destruct (present r1) as [cf|]; [|eauto].
    destruct (aigc cf lang mode tid w2) as [[r2|e] w3]; [|eauto].
    destruct (present r2) as [md|]; [|eauto].
    destruct (to_pdf md cf lang mode tid w3) as [[r3|e] w4]; [|eauto].
    destruct (present r3) as [pf|]; eauto.
  - unfold process_media. rewrite process_media_with_run. fold tid. cbv zeta.
    destruct (media_processor_returns U X input tid (task_world X lang mode w))
      as (r1 & w2 & Hacq).
    rewrite Hacq. rewrite (media_processor_present _ _ _ _ _ Hacq).
    destruct r1 as [cf|]; [|by eexists _, _, _, _].
    destruct (aigc_processor_returns U X self cf lang mode tid w2) as (r2 & w3 & Hai).
    rewrite Hai. destruct (present r2) as [md|] eqn:Hr2.
    + destruct (markdown_to_pdf_returns U X md cf lang mode tid w3) as (r3 & w4 & Hpdf).
      rewrite Hpdf. destruct (present r3) as [pf|] eqn:Hr3.
      * eexists _, _, _, _. split; [reflexivity|]. split; [reflexivity|].
        exists r2, w3. split; [done|]. rewrite Hr2. exists r3, w4. by rewrite Hr3.
      * eexists _, _, _, _. split; [reflexivity|]. split; [reflexivity|].
        exists r2, w3. split; [done|]. rewrite Hr2. exists r3, w4. by rewrite Hr3.
    + eexists _, _, _, _. split; [reflexivity|]. split; [reflexivity|].
      exists r2, w3. split; [done|]. by rewrite Hr2.
Qed.

(** C2.  A text that begins with [# ] never assigns the local [title]
    that the metadata read: [__markdown_to_pdf] catches the error, logs it
    and answers [None].  So [process_media] answers [(compressed, None)]
    whenever the AI stage yields such a text, and when it answers
    [(compressed, pdf)] the text did not begin with [# ]. *)
Theorem heading_text_yields_no_pdf
    (input lang mode md original task : pystr) (w wm : world)
    (Hheading : startswith (str "# ") md = true) :
  let tid := task_id_of X w in
  let w0 :=
    add_log (INFO, tagged task
      (str "Generating PDF: " ++ pdf_path_of U X original lang mode)) wm in
  (exists e w1,
     markdown_to_pdf U X md original lang mode task wm =
       (Ret None,
        add_log (ERROR, tagged task (str "PDF generation failed: " ++ exn_msg e)) w1)
     /\ (pdf_new_error X w0 = None ->
         pdf_add_section_error X (PdfDoc 3 [] []) md css (tick w0) = None ->
         exn_type e = "UnboundLocalError"%string))
  /\ (forall compressed w2 w3,
        media_processor U X input tid (task_world X lang mode w) = (Ret (Some compressed), w2) ->
        aigc_processor U X self compressed lang mode tid w2 = (Ret (Some md), w3) ->
        exists w', process_media U X self input lang mode w = (Ret (Some compressed, None), w'))
  /\ (forall compressed pdf w',
        process_media U X self input lang mode w = (Ret (Some compressed, Some pdf), w') ->
        exists text w2 w3,
          aigc_processor U X self compressed lang mode tid w2 = (Ret (Some text), w3)
          /\ startswith (str "# ") text = false).
Proof.
  intros tid w0. split; [by apply markdown_to_pdf_heading|]. split.
  - intros cf w2 w3 Hacq Hai.
    unfold process_media. rewrite process_media_with_run. fold tid. cbv zeta.
    rewrite Hacq, (media_processor_present _ _ _ _ _ Hacq), Hai.
    destruct md as [|c md']; [done|]. cbn [present].
    destruct (markdown_to_pdf_heading U X (c :: md') cf lang mode tid w3 Hheading)
      as (e & w4 & -> & _). cbn [present]. eauto.
  - intros cf pf w'.
    unfold process_media. rewrite process_media_with_run. fold tid. cbv zeta.
    destruct (media_processor_returns U X input tid (task_world X lang mode w))
      as (r1 & w2 & Hacq).
    rewrite Hacq, (media_processor_present _ _ _ _ _ Hacq).
    destruct r1 as [cf'|]; [|done].
    destruct (aigc_processor_returns U X self cf' lang mode tid w2) as (r2 & w3 & Hai).
    rewrite Hai. destruct r2 as [[|c text]|]; cbn [present]; [done| |done].
    destruct (startswith (str "# ") (c :: text)) eqn:Hs.
    + destruct (markdown_to_pdf_heading U X (c :: text) cf' lang mode tid w3 Hs)
        as (e & w4 & -> & _). done.
    + destruct (markdown_to_pdf_returns U X (c :: text) cf' lang mode tid w3)
        as (r3 & w4 & ->).
      destruct (present r3); [|done]. intros [= -> _ _]. eauto.
Qed.

(** C8 as amended.  With a mode that is neither [analysis] nor
    [transcript] (after lowering) and an acquisition that yields a file,
    the AI stage answers [None] after logging an error tagged with the
    task id, and [process_media] answers [(compressed, None)].  The error
    says [Invalid processing mode] when configuring the client and
    probing the length of the audio went through; when one of them
    raises, the mode is never looked at and the error says
    [AI <mode> processing failed]. *)
Theorem invalid_mode_keeps_audio (input lang mode compressed : pystr) (w w2 : world)
    (Hanalysis : lower U mode <> str "analysis")
    (Htranscript : lower U mode <> str "transcript")
    (Hacquired :
       media_processor U X input (task_id_of X w) (task_world X lang mode w)
       = (Ret (Some compressed), w2)) :
  let tid := task_id_of X w in
  exists w',
    aigc_processor U X self compressed lang mode tid w2 = (Ret None, w')
    /\ process_media U X self input lang mode w = (Ret (Some compressed, None), w')
    /\ match aigc_probe X self compressed w2 with
       | (Ret _, w1) =>
           w' = add_log (ERROR, tagged tid (str "Invalid processing mode: " ++ mode)) w1
       | (Raise e, w1) =>
           w' = add_log (ERROR, tagged tid
                  (str "AI " ++ mode ++ str " processing failed: " ++ exn_msg e)) w1
       end.
Proof.
  intros tid.
  destruct (aigc_processor_invalid_mode U X self compressed lang mode tid w2
              Hanalysis Htranscript) as (w' & Hai & Hlog).
  exists w'. split; [done|]. split; [|done].
  unfold process_media. rewrite process_media_with_run. subst tid. cbv zeta.
  by rewrite Hacquired, (media_processor_present _ _ _ _ _ Hacquired), Hai.
Qed.

End Pipeline_facts.

(** ** Concrete runs *)

(** C3 as stated fails twice.  The title of the video goes into the name
    of the downloaded file as it is (line 111), blanks and colon included;
    and the substitution keeps a letter such as [é] (code point 233),
    which [\w] matches and [[A-Za-z0-9_-]] does not hold. *)
Lemma sanitized_temp_names_counterexample :
  (youtube_temp_filename (str "20250101_120000_0123abcd") (str "My talk: part 1")
     = str "20250101_120000_0123abcd_My talk: part 1.m4a"
   /\ forallb is_safe (str "20250101_120000_0123abcd_My talk: part 1") = false
   /\ (youtube_fetch studio (str "https://youtu.be/abc") (str "20250101_120000_0123abcd")
         empty_world).1
      = Ret (str "/tmp/20250101_120000_0123abcd_My talk: part 1.m4a"))
  /\ (sanitized_stem latin1_db (str "/data/caf" ++ [233] ++ str ".wav") = str "caf" ++ [233]
      /\ is_safe 233 = false).
Proof. repeat split. Qed.

Lemma invalid_input_creates_nothing_witness :
  exists w',
    media_processor ascii_db studio (str "/tmp/missing.mp4") (str "T1") empty_world
      = (Ret None, w')
    /\ files w' = files empty_world.
Proof.
  destruct (invalid_input_creates_nothing ascii_db studio
              (str "/tmp/missing.mp4") (str "T1") empty_world eq_refl)
    as (w' & Hrun & Hfiles & _).
  exists w'. split; [exact Hrun|exact Hfiles].
Defined.

Lemma failed_get_leaves_temp_file_witness :
  exists w',
    process_web_url ascii_db (with_failing_get studio)
      (str "http://example.com/a.mp4") (str "T1") empty_world = (Ret None, w')
    /\ files w' !! str "/tmp/a.mp4.mp4" = Some [].
Proof.
  destruct (failed_get_leaves_temp_file ascii_db (with_failing_get studio)
              (str "http://example.com/a.mp4") (str "T1") (str "/tmp/a.mp4.mp4")
              empty_world
              (add_log (INFO, tagged (str "T1")
                 (str "Processing web URL: " ++ str "http://example.com/a.mp4")) empty_world)
              (Exn "ConnectionError" (str "connection refused"))
              eq_refl eq_refl eq_refl)
    as (w' & Hrun & Hfile & _).
  exists w'. split; [exact Hrun|exact Hfile].
Defined.


Lemma web_download_writes_on_200_witness :
  exists w2,
    web_fetch studio (str "http://example.com/a.mp4")
      (add_log (INFO, tagged (str "T1")
         (str "Processing web URL: " ++ str "http://example.com/a.mp4")) empty_world)
      = (Ret (str "/tmp/a.mp4.mp4"), w2)
    /\ files w2 !! str "/tmp/a.mp4.mp4" = Some [1; 2; 3].
Proof.
  destruct (web_download_writes_on_200 ascii_db studio
              (str "http://example.com/a.mp4") (str "T1") (str "/tmp/a.mp4.mp4")
              empty_world
              (add_log (INFO, tagged (str "T1")
                 (str "Processing web URL: " ++ str "http://example.com/a.mp4")) empty_world)
              (Response 200 (fun _ => ([[1; 2]; [3]], None))))
    as (_ & r & w2 & Hrun & Hcase & _); try (vm_compute; reflexivity).
  cbn in Hcase. destruct Hcase as [Hfile ->]. exists w2. split; [exact Hrun|exact Hfile].
Defined.

Lemma heading_text_yields_no_pdf_witness :
  startswith (str "# ") (str "# Friday talk") = true
  /\ exists w',
       process_media ascii_db (with_model (str "# Friday talk") studio) plain_self
         (str "/data/talk.wav") (str "english") (str "analysis") talk_world
       = (Ret (Some (str "/tmp/talk.mp3"), None), w').
Proof.
  split; [reflexivity|].
  pose (X := with_model (str "# Friday talk") studio).
  pose (acq := media_processor ascii_db X (str "/data/talk.wav")
                 (task_id_of X talk_world)
                 (task_world X (str "english") (str "analysis") talk_world)).
  pose (ai := aigc_processor ascii_db X plain_self (str "/tmp/talk.mp3")
                (str "english") (str "analysis") (task_id_of X talk_world) acq.2).
  refine (proj1 (proj2 (heading_text_yields_no_pdf ascii_db X plain_self
            (str "/data/talk.wav") (str "english") (str "analysis") (str "# Friday talk")
            [] [] talk_world talk_world eq_refl))
            (str "/tmp/talk.mp3") acq.2 ai.2 _ _); vm_compute; reflexivity.
Defined.

Lemma invalid_mode_keeps_audio_witness :
  exists w',
    process_media ascii_db studio plain_self
      (str "/data/talk.wav") (str "english") (str "summary") talk_world
    = (Ret (Some (str "/tmp/talk.mp3"), None), w')
    /\ last (logged w')
       = Some (ERROR, str "[20250101_120000_0123abcd] Invalid processing mode: summary").
Proof.
  pose (acq := media_processor ascii_db studio (str "/data/talk.wav")
                 (task_id_of studio talk_world)
                 (task_world studio (str "english") (str "summary") talk_world)).
  destruct (invalid_mode_keeps_audio ascii_db studio plain_self
              (str "/data/talk.wav") (str "english") (str "summary") (str "/tmp/talk.mp3")
              talk_world acq.2)
    as (w' & _ & Hrun & Hlog).
  - vm_compute. discriminate.
  - vm_compute. discriminate.
  - vm_compute. reflexivity.
  - exists w'. split; [exact Hrun|].
    vm_compute in Hlog. rewrite Hlog. vm_compute. reflexivity.
Defined.

(** C8 as stated fails when the length of the compressed file cannot be
    probed: with an encoder that wrote an empty file, the mode [summary]
    is never looked at, and the only error logged is
    [AI summary processing failed]. *)
Lemma invalid_mode_keeps_audio_counterexample :
  lower ascii_db (str "summary") = str "summary"
  /\ (process_media ascii_db (with_silent_encoder studio) plain_self
        (str "/data/talk.wav") (str "english") (str "summary") talk_world).1
     = Ret (Some (str "/tmp/talk.mp3"), None)
  /\ logged (process_media ascii_db (with_silent_encoder studio) plain_self
        (str "/data/talk.wav") (str "english") (str "summary") talk_world).2
     = [ (INFO, str "[20250101_120000_0123abcd] Task started: summary in english");
         (INFO, str "[20250101_120000_0123abcd] Compressing audio: /data/talk.wav");
         (ERROR, str "[20250101_120000_0123abcd] AI summary processing failed: failed to read the duration of the file") ].
Proof. repeat split; vm_compute; reflexivity. Qed.



(** * Further properties of the module *)

(** ** What the two URL tests accept *)

Lemma lang_chr c p : lang (Chr c) p <-> p = [c].
Proof.
  unfold Chr. split.
  - inversion 1 as [|q c' Hc| | | | |]; subst. by apply N.eqb_eq in Hc as ->.
  - intros ->. constructor. apply N.eqb_refl.
Qed.

Lemma lang_lit l p : lang (Lit l) p <-> p = l.
Proof.
  revert p. induction l as [|c l IH]; intros p; cbn [Lit foldr].
  - split; [by inversion 1|intros ->; constructor].
  - split.
    + inversion 1 as [| |r1 r2 a b Ha Hb| | | |]; subst.
      apply lang_chr in Ha as ->. by apply IH in Hb as ->.
    + intros ->. apply (lang_seq _ _ [c] l); [by apply lang_chr|by apply IH].
Qed.

Lemma lang_seq_inv r1 r2 p :
  lang (Seq r1 r2) p <-> exists a b, p = a ++ b /\ lang r1 a /\ lang r2 b.
Proof.
  split.
  - inversion 1; subst; eauto.
  - intros (a & b & -> & Ha & Hb). by constructor.
Qed.

Lemma lang_alt_inv r1 r2 p : lang (Alt r1 r2) p <-> lang r1 p \/ lang r2 p.
Proof.
  split.
  - inversion 1; subst; auto.
  - intros [H|H]; [by apply lang_alt_l|by apply lang_alt_r].
Qed.

Lemma lang_opt_inv r p : lang (Opt r) p <-> lang r p \/ p = [].
Proof.
  unfold Opt. rewrite lang_alt_inv. split; (intros [H|H]; [by left|right]).
  - by inversion H.
  - subst. constructor.
Qed.

Lemma lang_cls_inv q p : lang (Cls q) p <-> exists c, p = [c] /\ q c = true.
Proof.
  split.
  - inversion 1; subst; eauto.
  - intros (c & -> & Hc). by constructor.
Qed.

(** A repetition of at least one round begins with one round. *)
Lemma lang_plus_head r p :
  lang (Plus r) p -> exists a b, p = a ++ b /\ lang r a.
Proof. unfold Plus. rewrite lang_seq_inv. intros (a & b & -> & Ha & _). eauto. Qed.

Lemma lang_plus_one r a : lang r a -> lang (Plus r) a.
Proof.
  intros Ha. unfold Plus. rewrite <- (app_nil_r a). constructor; [done|constructor].
Qed.

Lemma lang_url_token U a :
  lang (Alt (Cls (fun c => (c =? 45) || is_word U c || (c =? 46)))
            (Seq (Chr 37) (Seq (Cls (is_hex U)) (Cls (is_hex U))))) a
  <-> (exists c, a = [c] /\ (c =? 45) || is_word U c || (c =? 46) = true)
      \/ (exists h1 h2, a = [37; h1; h2] /\ is_hex U h1 = true /\ is_hex U h2 = true).
Proof.
  rewrite lang_alt_inv, lang_cls_inv, lang_seq_inv. split.
  - intros [H|(x & y & -> & Hx & Hy)]; [by left|right].
    apply lang_chr in Hx as ->.
    apply lang_seq_inv in Hy as (y1 & y2 & -> & (h1 & -> & H1)%lang_cls_inv
                                  & (h2 & -> & H2)%lang_cls_inv).
    by exists h1, h2.
  - intros [H|(h1 & h2 & -> & H1 & H2)]; [by left|right].
    exists [37], [h1; h2]. split; [done|]. split; [by apply lang_chr|].
    apply lang_seq_inv. exists [h1], [h2]. split; [done|]. split; by constructor.
Qed.

Lemma url_head_token U rest :
  url_head U rest = true <->
  exists a b, rest = a ++ b
    /\ ((exists c, a = [c] /\ (c =? 45) || is_word U c || (c =? 46) = true)
        \/ (exists h1 h2, a = [37; h1; h2] /\ is_hex U h1 = true /\ is_hex U h2 = true)).
Proof.
  split.
  - destruct rest as [|c t]; [done|]. cbn [url_head].
    destruct ((c =? 45) || is_word U c || (c =? 46)) eqn:Hc.
    + intros _. exists [c], t. split; [done|]. left. eauto.
    + rewrite orb_false_l. intros [Hp Hh]%andb_prop.
      apply N.eqb_eq in Hp as ->.
      destruct t as [|h1 [|h2 t]]; [done..|]. apply andb_prop in Hh as [H1 H2].
      exists [37; h1; h2], t. split; [done|]. right. by exists h1, h2.
  - intros (a & b & -> & [(c & -> & Hc)|(h1 & h2 & -> & H1 & H2)]); cbn [url_head app].
    + by rewrite Hc.
    + rewrite H1, H2, N.eqb_refl. apply orb_true_r.
Qed.

(** [__is_url] accepts exactly the strings that begin with [http://] or
    [https://] followed by one character of [[-\w.]] or by a
    percent-escape; nothing after that first character is looked at, and
    the scheme is matched case-sensitively. *)
Theorem is_url_accepts (U : unicode_db) (s : pystr) :
  is_url U s = true <->
  exists rest,
    (s = str "http://" ++ rest \/ s = str "https://" ++ rest)
    /\ url_head U rest = true.
Proof.
  unfold is_url. rewrite re_match_spec. unfold matches, url_regex. split.
  - intros (p & rest & -> & Hp).
    apply lang_seq_inv in Hp as (a1 & p1 & -> & ->%lang_lit & Hp).
    apply lang_seq_inv in Hp as (a2 & p2 & -> & Ha2%lang_opt_inv & Hp).
    apply lang_seq_inv in Hp as (a3 & p3 & -> & ->%lang_lit & Hp).
    apply lang_plus_head in Hp as (a & b & -> & Ha%lang_url_token).
    exists (a ++ b ++ rest). split.
    + destruct Ha2 as [->%lang_chr| ->]; [right|left]; by rewrite <- !app_assoc.
    + apply url_head_token. eauto.
  - intros (rest & Hs & (a & b & -> & Ha%lang_url_token)%url_head_token).
    assert (lang (Plus (Alt (Cls (fun c => (c =? 45) || is_word U c || (c =? 46)))
                           (Seq (Chr 37) (Seq (Cls (is_hex U)) (Cls (is_hex U)))))) a)
      as Hplus by by apply lang_plus_one.
    destruct Hs as [-> | ->].
    + exists (str "http://" ++ a), b. split; [by rewrite <- !app_assoc|].
      apply (lang_seq _ _ (str "http") (str "://" ++ a)); [by apply lang_lit|].
      apply (lang_seq _ _ [] (str "://" ++ a)); [apply lang_opt_inv; by right|].
      apply lang_seq; [by apply lang_lit|done].
    + exists (str "https://" ++ a), b. split; [by rewrite <- !app_assoc|].
      apply (lang_seq _ _ (str "http") (str "s://" ++ a)); [by apply lang_lit|].
      apply (lang_seq _ _ [115] (str "://" ++ a));
        [apply lang_opt_inv; left; by apply lang_chr|].
      apply lang_seq; [by apply lang_lit|done].
Qed.

Ltac in_list := apply list_elem_of_In; vm_compute; auto 10.

Lemma lang_youtube_head h :
  lang youtube_regex h <-> h ∈ youtube_heads.
Proof.
  unfold youtube_regex, youtube_heads. split.
  - intros Hp.
    apply lang_seq_inv in Hp as (a1 & p1 & -> & H1%lang_opt_inv & Hp).
    apply lang_seq_inv in Hp as (a2 & p2 & -> & H2%lang_opt_inv & Hp).
    apply lang_seq_inv in Hp as (a3 & p3 & -> & H3 & Hp).
    apply lang_seq_inv in Hp as (a4 & p4 & -> & ->%lang_chr & Hp).
    apply lang_seq_inv in Hp as (a5 & a6 & -> & H5 & ->%lang_chr).
    apply list_elem_of_bind. exists a1. split.
    2:{ destruct H1 as [H1| ->]; [|in_list].
        apply lang_seq_inv in H1 as (x & y & -> & ->%lang_lit & H1).
        apply lang_seq_inv in H1 as (o & z & -> & Ho%lang_opt_inv & ->%lang_lit).
        destruct Ho as [->%lang_chr| ->]; cbn; in_list. }
    apply list_elem_of_bind. exists a2. split.
    2:{ destruct H2 as [->%lang_lit| ->]; in_list. }
    apply list_elem_of_bind. exists a3. split.
    2:{ apply lang_alt_inv in H3 as [->%lang_lit|H3]; [in_list|].
        apply lang_alt_inv in H3 as [->%lang_lit| ->%lang_lit]; in_list. }
    apply list_elem_of_bind. exists a5. split.
    2:{ apply lang_alt_inv in H5 as [->%lang_lit| ->%lang_lit]; in_list. }
    apply list_elem_of_singleton. done.
  - intros (scheme & Hh & Hscheme)%list_elem_of_bind.
    apply list_elem_of_bind in Hh as (www & Hh & Hwww).
    apply list_elem_of_bind in Hh as (host & Hh & Hhost).
    apply list_elem_of_bind in Hh as (tld & Hh & Htld).
    apply list_elem_of_singleton in Hh as ->.
    apply lang_seq.
    { apply lang_opt_inv.
      apply elem_of_cons in Hscheme as [->|Hscheme]; [by right|left].
      apply elem_of_cons in Hscheme as [->|Hscheme].
      - apply (lang_seq _ _ (str "http") (str "://")); [by apply lang_lit|].
        apply (lang_seq _ _ [] (str "://")); [apply lang_opt_inv; by right|by apply lang_lit].
      - apply list_elem_of_singleton in Hscheme as ->.
        apply (lang_seq _ _ (str "http") (str "s://")); [by apply lang_lit|].
        apply (lang_seq _ _ [115] (str "://"));
          [apply lang_opt_inv; left; by apply lang_chr|by apply lang_lit]. }
    apply lang_seq.
    { apply lang_opt_inv.
      apply elem_of_cons in Hwww as [->|Hwww]; [by right|left].
      apply list_elem_of_singleton in Hwww as ->. by apply lang_lit. }
    apply lang_seq.
    { apply elem_of_cons in Hhost as [->|Hhost]; [apply lang_alt_l; by apply lang_lit|].
      apply lang_alt_r.
      apply elem_of_cons in Hhost as [->|Hhost]; [apply lang_alt_l; by apply lang_lit|].
      apply list_elem_of_singleton in Hhost as ->. apply lang_alt_r. by apply lang_lit. }
    apply (lang_seq _ _ [46]); [by apply lang_chr|].
    apply lang_seq; [|by apply lang_chr].
    apply elem_of_cons in Htld as [->|Htld]; [apply lang_alt_l; by apply lang_lit|].
    apply list_elem_of_singleton in Htld as ->. apply lang_alt_r. by apply lang_lit.
Qed.

(** [__is_youtube_url] accepts exactly the strings that begin with one of
    the heads: scheme and [www.] are optional, the name is [youtube],
    [youtu] or [youtube-nocookie], the domain [com] or [be], and a slash
    must follow; a host with any other subdomain, or a head in capital
    letters, is not accepted. *)
Theorem is_youtube_url_accepts (s : pystr) :
  is_youtube_url s = true <-> exists h rest, h ∈ youtube_heads /\ s = h ++ rest.
Proof.
  rewrite is_youtube_url_spec. unfold matches. split.
  - intros (p & rest & -> & Hp%lang_youtube_head). eauto.
  - intros (h & rest & Hh%lang_youtube_head & ->). eauto.
Qed.

(** ** Cleaning, once more *)

Lemma re_sub_fence_free (R : regex) (b : pystr) :
  (forall s' rest, match_at R false s' = Some rest -> (length rest < length s')%nat) ->
  (forall x, (lead x < 3)%nat -> match_at R false x = None) ->
  contains [96; 96; 96] b = false ->
  re_sub R [] b = b.
Proof.
  intros Hne HR Hb. rewrite <- (app_nil_r b) at 1.
  rewrite re_sub_plain by done.
  rewrite re_sub_nil; [by rewrite app_nil_r|]. apply HR. cbn. lia.
Qed.

Lemma clean_fence_free text :
  contains [96; 96; 96] text = false -> clean_markdown text = strip text.
Proof.
  intros H. unfold clean_markdown.
  rewrite (re_sub_fence_free fence_open_regex)
    by (done || apply fence_open_consumes || apply match_at_fence_open_lead).
  by rewrite (re_sub_fence_free fence_regex)
    by (done || apply fence_consumes || apply match_at_fence_lead).
Qed.

Lemma lstrip_fixed s :
  match s with c :: _ => is_space c = false | [] => True end -> lstrip s = s.
Proof. destruct s as [|c t]; [done|]. simpl. by intros ->. Qed.

Lemma lstrip_head s :
  match lstrip s with c :: _ => is_space c = false | [] => True end.
Proof.
  induction s as [|c t IH]; simpl; [done|].
  destruct (is_space c) eqn:Hc; [done|]. by simpl.
Qed.

Lemma rstrip_prefix s : exists d, s = rstrip s ++ d.
Proof.
  unfold rstrip. destruct (lstrip_suffix (rev s)) as [a Ha].
  exists (rev a). by rewrite <- rev_app_distr, <- Ha, rev_involutive.
Qed.

Lemma strip_idem s : strip (strip s) = strip s.
Proof.
  assert (lstrip (strip s) = strip s) as Hl.
  { apply lstrip_fixed. unfold strip.
    destruct (rstrip_prefix (lstrip s)) as [d Hd].
    pose proof (lstrip_head s) as Hh. rewrite Hd in Hh.
    by destruct (rstrip (lstrip s)). }
  unfold strip at 1. rewrite Hl. unfold rstrip at 1.
  rewrite lstrip_fixed; [apply rev_involutive|].
  unfold strip, rstrip. rewrite rev_involutive. apply lstrip_head.
Qed.

(** On a text with no fence marker, [__clean_markdown] only strips the
    blanks at both ends. *)
Theorem clean_markdown_without_fence (text : pystr)
    (Hplain : contains (str "```") text = false) :
  clean_markdown text = strip text.
Proof. by apply clean_fence_free. Qed.

(** [__clean_markdown] is idempotent: cleaning a cleaned text changes
    nothing. *)
Theorem clean_markdown_idempotent (text : pystr) :
  clean_markdown (clean_markdown text) = clean_markdown text.
Proof.
  rewrite (clean_fence_free (clean_markdown text)).
  - unfold clean_markdown. apply strip_idem.
  - unfold clean_markdown. apply contains_strip, sub_fence_no_fence.
Qed.

(** ** Paths of the temporary files *)

Lemma rfind_bounds c s : (-1 <= rfind c s < Z.of_nat (length s))%Z.
Proof.
  induction s as [|d t IH]; cbn [rfind length]; [lia|].
  destruct (0 <=? rfind c t)%Z eqn:Hr; [apply Z.leb_le in Hr; lia|].
  destruct (d =? c); lia.
Qed.

Lemma rfind_notin c s : c ∉ s -> rfind c s = (-1)%Z.
Proof.
  induction s as [|d t IH]; [done|]. intros [Hd Ht]%not_elem_of_cons.
  cbn [rfind]. rewrite IH by done. cbn.
  destruct (N.eqb_spec d c); [by subst|done].
Qed.

Lemma rfind_app c a b :
  rfind c (a ++ b) =
    if (0 <=? rfind c b)%Z then (Z.of_nat (length a) + rfind c b)%Z else rfind c a.
Proof.
  induction a as [|d a IH]; cbn [app rfind length].
  - destruct (0 <=? rfind c b)%Z eqn:Hr; [lia|].
    apply Z.leb_gt in Hr. pose proof (rfind_bounds c b). lia.
  - rewrite IH. destruct (0 <=? rfind c b)%Z eqn:Hr; [|done].
    apply Z.leb_le in Hr.
    replace (0 <=? Z.of_nat (length a) + rfind c b)%Z with true
      by (symmetry; apply Z.leb_le; lia).
    lia.
Qed.

(** Nothing after the last occurrence. *)
Lemma rfind_drop c s : c ∉ drop (Z.to_nat (rfind c s + 1)) s.
Proof.
  induction s as [|d t IH]; [by apply not_elem_of_nil|]. cbn [rfind].
  pose proof (rfind_bounds c t) as Hb.
  destruct (0 <=? rfind c t)%Z eqn:Hr.
  - apply Z.leb_le in Hr.
    replace (Z.to_nat (rfind c t + 1 + 1)) with (S (Z.to_nat (rfind c t + 1))) by lia.
    done.
  - apply Z.leb_gt in Hr. assert (rfind c t = (-1)%Z) as Ht by lia.
    rewrite Ht in IH. cbn in IH.
    destruct (N.eqb_spec d c) as [->|Hd]; cbn; [done|].
    by apply not_elem_of_cons.
Qed.

(** A base name holds no slash. *)
Lemma basename_no_slash p : 47 ∉ basename p.
Proof. apply rfind_drop. Qed.

Lemma join_prefix_shape a : join_prefix a = [] \/ exists x, join_prefix a = x ++ [47].
Proof.
  unfold join_prefix. destruct (last a) as [c|] eqn:Hl; [|by left]. right.
  destruct (N.eqb_spec c 47) as [->|_]; [|by exists a].
  apply last_Some in Hl as [x ->]. by exists x.
Qed.

Lemma path_join_relative a b :
  startswith (str "/") b = false -> path_join a b = join_prefix a ++ b.
Proof.
  intros Hb. unfold path_join, join_prefix. rewrite Hb.
  destruct (last a) as [c|]; [|done]. destruct (c =? 47); [done|].
  by rewrite <- app_assoc.
Qed.

Lemma basename_after_prefix a b :
  47 ∉ b -> basename (join_prefix a ++ b) = b.
Proof.
  intros Hb. unfold basename, slice_from.
  rewrite rfind_app, (rfind_notin 47 b) by done. cbn [Z.leb Z.compare].
  destruct (join_prefix_shape a) as [->|[x ->]]; [done|].
  rewrite rfind_app. change (rfind 47 [47]) with 0%Z. cbn [Z.leb Z.compare].
  replace (Z.to_nat (Z.of_nat (length x) + 0 + 1)) with (length (x ++ [47]))
    by (rewrite length_app; simpl; lia).
  by rewrite drop_app_length.
Qed.

Lemma relative_of_no_slash b : 47 ∉ b -> startswith (str "/") b = false.
Proof.
  destruct b as [|c b]; [done|]. intros [Hc _]%not_elem_of_cons.
  change (startswith (str "/") (c :: b)) with ((47 =? c) && true).
  destruct (N.eqb_spec 47 c); [by subst|done].
Qed.

(** A file name without a slash, joined to a directory, is the base name
    of the result. *)
Lemma basename_path_join a b : 47 ∉ b -> basename (path_join a b) = b.
Proof.
  intros Hb. rewrite path_join_relative by (by apply relative_of_no_slash).
  by apply basename_after_prefix.
Qed.

Lemma sanitize_char_plain U c : sanitize_char U c <> 46 /\ sanitize_char U c <> 47.
Proof.
  unfold sanitize_char.
  destruct (is_word U c || (c =? 45)) eqn:Hc; [|done].
  split; intros ->; discriminate Hc.
Qed.

(** A sanitized name holds neither a dot nor a slash. *)
Lemma sanitize_plain U s : (46 ∉ sanitize U s) /\ (47 ∉ sanitize U s).
Proof.
  rewrite sanitize_map.
  split; intros (c & Hc & _)%list_elem_of_fmap;
    by destruct (sanitize_char_plain U c).
Qed.

Lemma sanitize_fixed U s : sanitize U (sanitize U s) = sanitize U s.
Proof.
  rewrite !sanitize_map, map_map. apply map_ext. intros c. apply sanitize_char_idem.
Qed.

Lemma sanitize_length U s : length (sanitize U s) = length s.
Proof. rewrite sanitize_map. apply length_map. Qed.

Lemma mp3_no_slash : 47 ∉ str ".mp3".
Proof. intros H%list_elem_of_In. vm_compute in H. intuition discriminate. Qed.

Lemma splitext_root_mp3 s :
  46 ∉ s -> 47 ∉ s -> s <> [] -> splitext_root (s ++ str ".mp3") = s.
Proof.
  intros Hdot Hsep Hne. unfold splitext_root, slice_to, slice_from.
  rewrite (rfind_notin 47) by (rewrite elem_of_app; intros [?|H]; [done|by apply mp3_no_slash]).
  rewrite rfind_app. change (rfind 46 (str ".mp3")) with 0%Z. cbn [Z.leb Z.compare].
  replace (-1 <? Z.of_nat (length s) + 0)%Z with true by (symmetry; apply Z.ltb_lt; lia).
  replace (Z.to_nat (Z.of_nat (length s) + 0)) with (length s) by lia.
  replace (Z.to_nat (-1 + 1)) with O by lia.
  rewrite take_app_length, drop_0.
  destruct s as [|c s]; [done|]. cbn [has_non_dot existsb].
  apply not_elem_of_cons in Hdot as [Hc _].
  destruct (N.eqb_spec c 46); [done|]. done.
Qed.

Lemma stem_mp3_no_slash U p : 47 ∉ sanitized_stem U p ++ str ".mp3".
Proof.
  rewrite elem_of_app. intros [H|H]; [|by apply mp3_no_slash].
  by apply (proj2 (sanitize_plain U (splitext_root (basename p)))).
Qed.

Lemma basename_mp3_path U X p :
  basename (mp3_path_of U X p) = sanitized_stem U p ++ str ".mp3".
Proof. apply basename_path_join, stem_mp3_no_slash. Qed.

(** The stem of the compressed file is the stem of the original, unless
    that one is empty: then the file is called [.mp3] and its stem reads
    [_mp3]. *)
Lemma stem_of_mp3_path U X p :
  sanitized_stem U (mp3_path_of U X p) =
    if bool_decide (sanitized_stem U p = []) then str "_mp3" else sanitized_stem U p.
Proof.
  unfold sanitized_stem at 1. rewrite basename_mp3_path.
  case_bool_decide as Hs.
  - rewrite Hs. rewrite sanitize_map. reflexivity.
  - unfold sanitized_stem in *.
    destruct (sanitize_plain U (splitext_root (basename p))) as [Hdot Hsep].
    rewrite splitext_root_mp3 by done. apply sanitize_fixed.
Qed.

Lemma compress_audio_answer U X filepath tid w q w' :
  compress_audio U X filepath tid w = (Ret (Some q), w') ->
  q = mp3_path_of U X filepath /\ is_Some (files w' !! q).
Proof.
  rewrite compress_audio_run. cbv zeta. fold (mp3_path_of U X filepath).
  destruct (audio_open X _ _); [done|].
  destruct (audio_fadeout_error X _ _); [done|].
  destruct (audio_encode X _ _ _) as [|data]; [done|].
  intros [= <- <-]. split; [done|].
  unfold close_reader, set_files. cbn. rewrite lookup_insert_eq. eauto.
Qed.

Lemma rfind_split c s :
  (rfind c s = (-1)%Z /\ c ∉ s)
  \/ exists a b, s = a ++ c :: b /\ (c ∉ b) /\ rfind c s = Z.of_nat (length a).
Proof.
  induction s as [|d t IH]; [left; split; [done|apply not_elem_of_nil]|].
  cbn [rfind]. destruct IH as [[Hr Hn]|(a & b & -> & Hb & Hr)]; rewrite Hr.
  - cbn. destruct (N.eqb_spec d c) as [->|Hne].
    + right. by exists [], t.
    + left. split; [done|]. by apply not_elem_of_cons.
  - right. exists (d :: a), b. split; [done|]. split; [done|].
    destruct (0 <=? Z.of_nat (length a))%Z eqn:H; [cbn [length]; lia|].
    apply Z.leb_gt in H. lia.
Qed.

Lemma rfind_last c a b : c ∉ b -> rfind c (a ++ c :: b) = Z.of_nat (length a).
Proof.
  intros Hb. rewrite rfind_app. cbn [rfind]. rewrite (rfind_notin c b) by done. cbn.
  rewrite N.eqb_refl. cbn. lia.
Qed.

Lemma basename_is_basename p : is_basename p (basename p).
Proof.
  split; [apply basename_no_slash|].
  unfold basename, slice_from.
  destruct (rfind_split 47 p) as [[Hr _]|(a & b & Hp & Hb & Hr)]; rewrite Hr.
  - by left.
  - right. exists a. rewrite Hp at 1. f_equal.
    replace (Z.to_nat (Z.of_nat (length a) + 1)) with (length (a ++ [47]))
      by (rewrite length_app; cbn; lia).
    rewrite Hp, (cons_middle 47 a b), app_assoc. by rewrite drop_app_length.
Qed.

Lemma has_non_dot_spec s : has_non_dot s = true <-> exists c, c ∈ s /\ c <> 46.
Proof.
  unfold has_non_dot. rewrite existsb_exists. split.
  - intros (c & Hc%list_elem_of_In & Hne). exists c. split; [done|].
    intros ->. by rewrite N.eqb_refl in Hne.
  - intros (c & Hc%list_elem_of_In & Hne). exists c. split; [done|].
    by destruct (N.eqb_spec c 46).
Qed.

Lemma splitext_root_is_stem b : 47 ∉ b -> is_stem b (splitext_root b).
Proof.
  intros Hb. unfold splitext_root, slice_from, slice_to.
  rewrite (rfind_notin 47 b) by done.
  destruct (rfind_split 46 b) as [[Hr Hn]|(a & e & Hab & He & Hr)]; rewrite Hr.
  - right. split; [done|]. intros a' e' -> _. exfalso. apply Hn.
    apply elem_of_app. right. by left.
  - replace (-1 <? Z.of_nat (length a))%Z with true by (symmetry; apply Z.ltb_lt; lia).
    rewrite Nat2Z.id. change (Z.to_nat (-1 + 1)) with 0%nat. rewrite drop_0.
    assert (take (length a) b = a) as -> by (by rewrite Hab, take_app_length).
    destruct (has_non_dot a) eqn:Hdots.
    + left. exists e. split; [done|]. split; [done|]. by apply has_non_dot_spec.
    + right. split; [done|]. intros a' e' Hab' He' c Hc.
      change (a' ++ [46] ++ e') with (a' ++ 46 :: e') in Hab'.
      assert (a' = a) as ->.
      { assert (length a' = length a) as Hlen.
        { apply Nat2Z.inj. rewrite <- (rfind_last 46 a' e' He'), <- (rfind_last 46 a e He).
          by rewrite <- Hab, <- Hab'. }
        rewrite Hab in Hab'. by apply app_inj_1 in Hab' as [-> _]. }
      destruct (decide (c = 46)) as [|Hne]; [done|].
      assert (has_non_dot a = true) by (apply has_non_dot_spec; eauto). congruence.
Qed.

(** C3 as amended.  The name of the compressed file is built from the
    base name of the path handed to [__compress_audio] (what follows its
    last slash), extension dropped (the part from the last dot on, unless
    only dots stand before it), with every character that is neither a
    word character for Python's [\w] nor [-] replaced by [_].  So every
    character of the name is in [[A-Za-z0-9_-]] or is a non-ASCII
    alphanumeric that the base name already had; and when the compression
    answers a path, it is that name with [.mp3] in the temporary
    directory.  [__compress_audio] never raises. *)
Theorem sanitized_temp_names
    (U : unicode_db) (X : collaborators) (filepath tid : pystr) (w : world) :
  exists base stem,
    is_basename filepath base
    /\ is_stem base stem
    /\ sanitized_stem U filepath = map (sanitize_char U) stem
    /\ Forall (fun c => is_safe c = true
                        \/ (is_ascii c = false /\ alnum U c = true /\ c ∈ base))
              (map (sanitize_char U) stem)
    /\ match compress_audio U X filepath tid w with
       | (Ret (Some p), _) =>
           p = path_join (gettempdir X) (map (sanitize_char U) stem ++ str ".mp3")
       | (Ret None, _) => True
       | (Raise _, _) => False
       end.
Proof.
  exists (basename filepath), (splitext_root (basename filepath)).
  split; [apply basename_is_basename|].
  split; [apply splitext_root_is_stem, basename_no_slash|].
  split; [unfold sanitized_stem; apply sanitize_map|].
  split.
  - apply Forall_fmap, Forall_forall. intros c Hc. simpl.
    destruct (sanitize_char_safe U c) as [H|(-> & Ha & Hw)]; [by left|].
    right. repeat split; [done..|]. by apply splitext_root_subseteq.
  - rewrite compress_audio_run. cbv zeta.
    unfold sanitized_stem. rewrite sanitize_map.
    destruct (audio_open X _ _); [done|].
    destruct (audio_fadeout_error X _ _); [done|].
    by destruct (audio_encode X _ _ _).
Qed.

(** Whatever the input path, the compressed file lies directly in the
    temporary directory: the base name of its path is the sanitized stem
    followed by [.mp3], a name of the same length as the stem of the input
    plus four, with no slash and no dot before the extension. *)
Theorem compressed_file_in_tempdir (U : unicode_db) (X : collaborators) (filepath : pystr) :
  basename (mp3_path_of U X filepath) = sanitized_stem U filepath ++ str ".mp3"
  /\ mp3_path_of U X filepath = join_prefix (gettempdir X) ++ sanitized_stem U filepath ++ str ".mp3"
  /\ (46 ∉ sanitized_stem U filepath) /\ (47 ∉ sanitized_stem U filepath)
  /\ length (sanitized_stem U filepath) = length (splitext_root (basename filepath))
  /\ forall tid w,
       match compress_audio U X filepath tid w with
       | (Ret (Some q), w') => q = mp3_path_of U X filepath /\ is_Some (files w' !! q)
       | _ => True
       end.
Proof.
  split; [apply basename_mp3_path|]. split.
  { apply path_join_relative, relative_of_no_slash, stem_mp3_no_slash. }
  split; [apply sanitize_plain|]. split; [apply sanitize_plain|].
  split; [apply sanitize_length|].
  intros tid w. destruct (compress_audio U X filepath tid w) as [[[q|]|] w'] eqn:H; [|done..].
  by apply compress_audio_answer in H.
Qed.


(** Compressing a file that already sits where its compression would go
    writes over it: the path [__compress_audio] answers for the compressed
    file of any input with a stem is that very file again. *)
Theorem compress_audio_overwrites_own_output (U : unicode_db) (X : collaborators)
    (filepath tid q : pystr) (w w' : world)
    (Hstem : sanitized_stem U filepath <> [])
    (Hrun : compress_audio U X (mp3_path_of U X filepath) tid w = (Ret (Some q), w')) :
  q = mp3_path_of U X filepath
  /\ exists d data,
       audio_encode X (Clip (next_reader w) d) q
         (tick (open_reader (tick (add_log
            (INFO, tagged tid (str "Compressing audio: " ++ q)) w)))) = inr data
       /\ files w' !! q = Some data.
Proof.
  assert (mp3_path_of U X (mp3_path_of U X filepath) = mp3_path_of U X filepath) as Hfix.
  { unfold mp3_path_of at 1. rewrite stem_of_mp3_path. by rewrite bool_decide_false. }
  revert Hrun. rewrite compress_audio_run. cbv zeta.
  fold (mp3_path_of U X (mp3_path_of U X filepath)). rewrite Hfix.
  destruct (audio_open X _ _) as [|d]; [done|].
  destruct (audio_fadeout_error X _ _); [done|].
  destruct (audio_encode X _ _ _) as [|data] eqn:He; [done|].
  intros [= <- <-]. split; [done|]. exists d, data. split; [exact He|].
  unfold close_reader, set_files. cbn. apply lookup_insert_eq.
Qed.

(** ** What a run leaves behind: log and decoders *)

Ltac world_simpl :=
  unfold add_log, tick, open_reader, close_reader, set_files in *;
  cbn [logged readers files next_reader clock] in *.

Lemma startswith_app p x : startswith p (p ++ x) = true.
Proof. apply startswith_spec. eauto. Qed.

Lemma carries_tagged tid lvl msg : carries tid (lvl, tagged tid msg).
Proof.
  unfold carries, tagged. cbn [snd].
  replace (str "[" ++ tid ++ str "] " ++ msg) with ((str "[" ++ tid ++ str "] ") ++ msg)
    by (by rewrite <- !app_assoc).
  apply startswith_app.
Qed.

Lemma quiet_refl tid w : quiet tid w w.
Proof. split; [|done]. exists []. by rewrite app_nil_r. Qed.

Lemma quiet_trans tid w1 w2 w3 : quiet tid w1 w2 -> quiet tid w2 w3 -> quiet tid w1 w3.
Proof.
  intros [(e1 & H1 & F1) R1] [(e2 & H2 & F2) R2]. split; [|by etrans].
  exists (e1 ++ e2). rewrite H2, H1, app_assoc. split; [done|by apply Forall_app].
Qed.

(** A step that leaves log and readers as they are. *)
Lemma quiet_same tid w w' :
  logged w' = logged w -> readers w' = readers w -> quiet tid w w'.
Proof. intros Hl Hr. split; [|by rewrite Hr]. exists []. by rewrite app_nil_r. Qed.

Lemma quiet_log tid lvl msg w : quiet tid w (add_log (lvl, tagged tid msg) w).
Proof.
  split; [|done]. exists [(lvl, tagged tid msg)]. split; [done|].
  constructor; [apply carries_tagged|constructor].
Qed.

Lemma bind_inv {S A B} (m : prog S A) (f : A -> prog S B) s r s' :
  (m ≫= f) s = (r, s') ->
  (exists a s1, m s = (Ret a, s1) /\ f a s1 = (r, s'))
  \/ (exists e, m s = (Raise e, s') /\ r = Raise e).
Proof.
  unfold mbind, prog_bind. destruct (m s) as [[a|e] s1]; [left; eauto|].
  intros [= <- <-]. right. eauto.
Qed.

Section Frames.

Context (U : unicode_db) (X : collaborators) (self : citrailmu).

Lemma compress_audio_quiet filepath tid w r w' :
  compress_audio U X filepath tid w = (r, w') -> quiet tid w w'.
Proof.
  rewrite compress_audio_run. cbv zeta.
  assert (forall e w2, readers w2 ⊆ readers w -> logged w2 = logged w ++
            [(INFO, tagged tid (str "Compressing audio: " ++ filepath))] ->
          quiet tid w (add_log (ERROR, tagged tid
            (str "Audio compression failed: " ++ exn_msg e)) w2)) as Hfail.
  { intros e w2 Hr Hl. eapply quiet_trans; [|apply quiet_log].
    split; [|done]. eexists. split; [exact Hl|].
    constructor; [apply carries_tagged|constructor]. }
  destruct (audio_open X _ _); [intros [= <- <-]; by apply Hfail|].
  destruct (audio_fadeout_error X _ _).
  { intros [= <- <-]. apply Hfail; [apply readers_closed_sub|done]. }
  destruct (audio_encode X _ _ _); intros [= <- <-].
  { apply Hfail; [apply readers_closed_sub|done]. }
  split; [|apply readers_closed_sub].
  eexists. split; [reflexivity|]. constructor; [apply carries_tagged|constructor].
Qed.

Lemma compress_and_discard_quiet p tid w r w' :
  compress_and_discard U X p tid w = (r, w') -> quiet tid w w'.
Proof.
  unfold compress_and_discard, os_unlink. prog_unfold.
  destruct (compress_audio U X p tid w) as [[c|e] w2] eqn:Hc; cbn.
  - apply compress_audio_quiet in Hc.
    destruct (path_isfile w2 p) eqn:Hp; cbn; rewrite ?Hp; cbn; intros [= <- <-]; [|done].
    eapply quiet_trans; [exact Hc|]. by apply quiet_same.
  - apply compress_audio_quiet in Hc. by intros [= <- <-].
Qed.

Lemma youtube_fetch_same url tid w r w' :
  youtube_fetch X url tid w = (r, w') ->
  logged w' = logged w /\ readers w' = readers w.
Proof.
  unfold youtube_fetch. prog_unfold.
  destruct (youtube_title X url w); cbn; [by intros [= <- <-]|].
  destruct (youtube_download X _ _ _ _) as [|[p [data|]]]; cbn; by intros [= <- <-].
Qed.

Lemma write_chunks_same path chunks : forall w,
  exists w', write_chunks path chunks w = (Ret tt, w')
    /\ logged w' = logged w /\ readers w' = readers w.
Proof.
  induction chunks as [|chunk rest IH]; intros w; simpl; [by exists w|].
  unfold append_file. prog_unfold. cbn.
  edestruct IH as (w' & -> & Hl & Hr). exists w'. by rewrite Hl, Hr.
Qed.

Lemma web_download_same url path w r w' :
  web_download X url path w = (r, w') ->
  logged w' = logged w /\ readers w' = readers w.
Proof.
  unfold web_download. prog_unfold.
  destruct (open_error X path w); cbn; [by intros [= <- <-]|].
  destruct (requests_get X url _) as [|resp]; cbn; [by intros [= <- <-]|].
  destruct (status_code resp =? 200)%Z; [|by intros [= <- <-]].
  destruct (write_chunks_same path (iter_content resp 8192).1
              (tick (set_files (insert path []) (tick w)))) as (w1 & -> & Hl1 & Hr1).
  cbn. destruct (iter_content resp 8192).2; intros [= <- <-]; by rewrite Hl1, Hr1.
Qed.

Lemma web_temp_path_same url w :
  exists p w1, web_temp_path X url w = (Ret p, w1)
    /\ logged w1 = logged w /\ readers w1 = readers w /\ files w1 = files w.
Proof.
  unfold web_temp_path. prog_unfold. cbn.
  destruct (basename (split_head 63 url)); by eexists _, _.
Qed.

Lemma web_fetch_same url w r w' :
  web_fetch X url w = (r, w') ->
  logged w' = logged w /\ readers w' = readers w.
Proof.
  unfold web_fetch. intros [(p & w1 & Hp & H)|(e & Hp & _)]%bind_inv.
  - destruct (web_temp_path_same url w) as (p' & w1' & Hp' & Hl & Hr & _).
    rewrite Hp in Hp'. injection Hp' as <- <-.
    apply bind_inv in H as [(? & w2 & Hd & [= <- <-])|(e & Hd & _)];
      apply web_download_same in Hd as [Hl2 Hr2]; by rewrite Hl2, Hr2.
  - destruct (web_temp_path_same url w) as (p' & w1' & Hp' & _). congruence.
Qed.

Lemma process_youtube_quiet url tid w r w' :
  process_youtube U X url tid w = (r, w') -> quiet tid w w'.
Proof.
  unfold process_youtube, try_except. unfold logger_info at 1. prog_unfold. cbn.
  match goal with
  | |- context [youtube_fetch X url tid ?w0] =>
      destruct (youtube_fetch X url tid w0) as [[p|e] w1] eqn:Hf
  end; apply youtube_fetch_same in Hf as [Hl Hr].
  - destruct (compress_and_discard U X p tid w1) as [[c|e] w2] eqn:Hd;
      apply compress_and_discard_quiet in Hd.
    + intros [= <- <-]. eapply quiet_trans; [apply quiet_log|].
      eapply quiet_trans; [by apply quiet_same|exact Hd].
    + intros [= <- <-]. eapply quiet_trans; [apply quiet_log|].
      eapply quiet_trans; [by apply quiet_same|].
      eapply quiet_trans; [exact Hd|apply quiet_log].
  - intros [= <- <-]. eapply quiet_trans; [apply quiet_log|].
    eapply quiet_trans; [by apply quiet_same|apply quiet_log].
Qed.

Lemma process_web_url_quiet url tid w r w' :
  process_web_url U X url tid w = (r, w') -> quiet tid w w'.
Proof.
  unfold process_web_url, try_except. unfold logger_info at 1. prog_unfold. cbn.
  match goal with
  | |- context [web_fetch X url ?w0] =>
      destruct (web_fetch X url w0) as [[p|e] w1] eqn:Hf
  end; apply web_fetch_same in Hf as [Hl Hr].
  - destruct (compress_and_discard U X p tid w1) as [[c|e] w2] eqn:Hd;
      apply compress_and_discard_quiet in Hd.
    + intros [= <- <-]. eapply quiet_trans; [apply quiet_log|].
      eapply quiet_trans; [by apply quiet_same|exact Hd].
    + intros [= <- <-]. eapply quiet_trans; [apply quiet_log|].
      eapply quiet_trans; [by apply quiet_same|].
      eapply quiet_trans; [exact Hd|apply quiet_log].
  - intros [= <- <-]. eapply quiet_trans; [apply quiet_log|].
    eapply quiet_trans; [by apply quiet_same|apply quiet_log].
Qed.

Lemma media_processor_quiet input tid w r w' :
  media_processor U X input tid w = (r, w') -> quiet tid w w'.
Proof.
  rewrite media_processor_dispatch. destruct (classify U w input).
  - apply compress_audio_quiet.
  - apply process_youtube_quiet.
  - apply process_web_url_quiet.
  - intros [= <- <-]. apply quiet_log.
Qed.

(** The probe of the AI stage: log and storage untouched, the clip it
    opened closed again. *)
Lemma aigc_probe_frame input w r w' :
  aigc_probe X self input w = (r, w') ->
  logged w' = logged w /\ readers w' ⊆ readers w /\ files w' = files w.
Proof.
  unfold aigc_probe, AudioFileClip, clip_close. prog_unfold.
  assert (forall w0, logged w0 = logged w -> readers w0 = readers w -> files w0 = files w ->
    match audio_open X input w0 with
    | inl e => (Raise e, tick w0)
    | inr d => (Ret (format_duration d),
                close_reader (next_reader (tick w0)) (open_reader (tick w0)))
    end = (r, w') ->
    logged w' = logged w /\ readers w' ⊆ readers w /\ files w' = files w) as Hgo.
  { intros w0 Hl Hr Hf. destruct (audio_open X input w0); intros [= <- <-];
      world_simpl; rewrite Hr.
    - done.
    - split; [done|]. split; [apply readers_closed_sub|done]. }
  destruct (api_key self) as [[|c k]|]; cbn.
  - intros H. apply (Hgo w); try done. revert H.
    by destruct (audio_open X input w).
  - destruct (genai_configure_error X (c :: k) w); cbn; [by intros [= <- <-]|].
    intros H. apply (Hgo (tick w)); try done. revert H.
    by destruct (audio_open X input (tick w)).
  - intros H. apply (Hgo w); try done. revert H.
    by destruct (audio_open X input w).
Qed.

Lemma aigc_generate_frame input mode tid prompt w r w' :
  aigc_generate X self input mode tid prompt w = (r, w') ->
  quiet tid w w' /\ readers w' = readers w /\ files w' = files w.
Proof.
  unfold aigc_generate. prog_unfold.
  destruct (genai_upload_file X input w) as [|f]; cbn.
  { intros [= <- <-]. split; [by apply quiet_same|done]. }
  assert (quiet tid w
    (add_log (INFO, tagged tid (str "Processing AI " ++ mode ++ str "..."))
       (add_log (INFO, tagged tid (str "Uploading audio: " ++ f)) (tick w)))) as Hq.
  { eapply quiet_trans; [|apply quiet_log].
    eapply quiet_trans; [|apply quiet_log]. by apply quiet_same. }
  destruct (genai_generate X _ _ _ _); intros [= <- <-]; split; try done;
    (eapply quiet_trans; [exact Hq|by apply quiet_same]).
Qed.

(** The AI stage writes nothing to storage. *)
Lemma aigc_processor_frame input lang mode tid w r w' :
  aigc_processor U X self input lang mode tid w = (r, w') ->
  quiet tid w w' /\ files w' = files w.
Proof.
  rewrite aigc_processor_run. cbv zeta.
  destruct (aigc_probe X self input w) as [[fd|e] w1] eqn:Hp;
    apply aigc_probe_frame in Hp as (Hl & Hr & Hf).
  2:{ intros [= <- <-]. split; [|done].
      eapply quiet_trans; [|apply quiet_log]. split; [|done].
      exists []. by rewrite app_nil_r. }
  assert (quiet tid w w1) as Hq1.
  { split; [|done]. exists []. by rewrite app_nil_r. }
  assert (forall prompt,
    match aigc_generate X self input mode tid prompt w1 with
    | (Ret r0, w2) => (Ret r0, w2)
    | (Raise e, w2) =>
        (Ret None, add_log (ERROR, tagged tid
           (str "AI " ++ mode ++ str " processing failed: " ++ exn_msg e)) w2)
    end = (r, w') -> quiet tid w w' /\ files w' = files w) as Hgen.
  { intros prompt.
    destruct (aigc_generate X self input mode tid prompt w1) as [[r0|e] w2] eqn:Hg;
      apply aigc_generate_frame in Hg as (Hq & _ & Hf2); intros [= <- <-].
    - split; [by eapply quiet_trans|congruence].
    - split; [|by rewrite <- Hf, <- Hf2].
      eapply quiet_trans; [exact Hq1|]. eapply quiet_trans; [exact Hq|apply quiet_log]. }
  destruct (bool_decide _); [apply Hgen|].
  destruct (bool_decide _); [apply Hgen|].
  intros [= <- <-]. split; [|done]. eapply quiet_trans; [exact Hq1|apply quiet_log].
Qed.

(** The PDF stage: when it answers a path, that is the path of lines
    193-195 and the file is written there; otherwise storage is as it
    was. *)
Lemma markdown_to_pdf_frame md orig lang mode tid w r w' :
  markdown_to_pdf U X md orig lang mode tid w = (r, w') ->
  quiet tid w w' /\ readers w' = readers w
  /\ (r = Ret None /\ files w' = files w
      \/ exists data,
           r = Ret (Some (pdf_path_of U X orig lang mode))
           /\ files w' = <[pdf_path_of U X orig lang mode := data]> (files w)).
Proof.
  unfold markdown_to_pdf, ensure_heading, MarkdownPdf, pdf_add_section, pdf_save_to.
  set (path := pdf_path_of U X orig lang mode).
  assert (forall msg w2, logged w2 = logged w ++
            [(INFO, tagged tid (str "Generating PDF: " ++ path))] ->
          readers w2 = readers w -> files w2 = files w ->
          let w3 := add_log (ERROR, tagged tid
                      (str "PDF generation failed: " ++ msg)) w2 in
          (Ret None, w3) = (r, w') ->
          quiet tid w w' /\ readers w' = readers w
          /\ (r = Ret None /\ files w' = files w
              \/ exists data, r = Ret (Some path) /\ files w' = <[path := data]> (files w)))
    as Hfail.
  { intros msg w2 Hl Hr Hf w3 [= <- <-]. split; [|split; [done|by left]].
    eapply quiet_trans; [|apply quiet_log]. split; [|by rewrite Hr].
    eexists. split; [exact Hl|]. constructor; [apply carries_tagged|constructor]. }
  do 3 prog_unfold. cbn.
  destruct (pdf_new_error X _); cbn; [by apply Hfail|].
  destruct (startswith (str "# ") md); cbn.
  { destruct (pdf_add_section_error X _ _ _ _); cbn; by apply Hfail. }
  destruct (bool_decide (lower U mode = str "analysis")); cbn.
  { destruct (pdf_add_section_error X _ _ _ _); cbn; [by apply Hfail|].
    destruct (pdf_save X _ _ _) as [|data]; cbn; [by apply Hfail|].
    intros [= <- <-]. split; [|split; [done|right; by exists data]].
    split; [|done]. eexists. split; [reflexivity|].
    constructor; [apply carries_tagged|constructor]. }
  destruct (bool_decide (lower U mode = str "transcript")); cbn.
  { destruct (pdf_add_section_error X _ _ _ _); cbn; [by apply Hfail|].
    destruct (pdf_save X _ _ _) as [|data]; cbn; [by apply Hfail|].
    intros [= <- <-]. split; [|split; [done|right; by exists data]].
    split; [|done]. eexists. split; [reflexivity|].
    constructor; [apply carries_tagged|constructor]. }
  by apply Hfail.
Qed.

(** What [__compress_audio] does to storage: nothing, or one write at the
    path of the compressed file. *)
Lemma compress_audio_files filepath tid w r w' :
  compress_audio U X filepath tid w = (r, w') ->
  (r = Ret None /\ files w' = files w)
  \/ exists data,
       r = Ret (Some (mp3_path_of U X filepath))
       /\ files w' = <[mp3_path_of U X filepath := data]> (files w).
Proof.
  rewrite compress_audio_run. cbv zeta. fold (mp3_path_of U X filepath).
  destruct (audio_open X _ _); [intros [= <- <-]; by left|].
  destruct (audio_fadeout_error X _ _); [intros [= <- <-]; by left|].
  destruct (audio_encode X _ _ _) as [|data]; intros [= <- <-]; [by left|].
  right. by exists data.
Qed.

(** The three stages in a row, as [process_media] runs them. *)
Lemma process_media_quiet input lang mode w :
  quiet (task_id_of X w) (task_world X lang mode w)
    (process_media U X self input lang mode w).2.
Proof.
  unfold process_media. rewrite process_media_with_run. cbv zeta.
  set (tid := task_id_of X w). set (w1 := task_world X lang mode w).
  destruct (media_processor U X input tid w1) as [[r1|e] w2] eqn:H1;
    apply media_processor_quiet in H1.
  2:{ eapply quiet_trans; [exact H1|apply quiet_log]. }
  destruct (present r1) as [c|]; [|done].
  destruct (aigc_processor U X self c lang mode tid w2) as [[r2|e] w3] eqn:H2;
    apply aigc_processor_frame in H2 as [H2 _].
  2:{ eapply quiet_trans; [exact H1|]. eapply quiet_trans; [exact H2|apply quiet_log]. }
  destruct (present r2) as [t|]; [|by eapply quiet_trans].
  destruct (markdown_to_pdf U X t c lang mode tid w3) as [[r3|e] w4] eqn:H3;
    apply markdown_to_pdf_frame in H3 as [H3 _].
  2:{ eapply quiet_trans; [exact H1|]. eapply quiet_trans; [exact H2|].
      eapply quiet_trans; [exact H3|apply quiet_log]. }
  destruct (present r3) as [pf|].
  - eapply quiet_trans; [exact H1|]. eapply quiet_trans; [exact H2|].
    eapply quiet_trans; [exact H3|apply quiet_log].
  - eapply quiet_trans; [exact H1|]. by eapply quiet_trans.
Qed.

End Frames.

(** ** The log and the decoders after [process_media] *)

(** Whatever the input and whatever the collaborators do, a run of
    [process_media] only appends to the log: first the [Task started]
    line, then lines that all begin with the task id in brackets; and
    every decoder the run opened is closed when it returns. *)
Theorem process_media_log_and_decoders
    (U : unicode_db) (X : collaborators) (self : citrailmu)
    (input lang mode : pystr) (w : world) :
  let tid := task_id_of X w in
  let w' := (process_media U X self input lang mode w).2 in
  (exists es,
     logged w' = logged w
       ++ (INFO, tagged tid (str "Task started: " ++ mode ++ str " in " ++ lang)) :: es
     /\ Forall (carries tid) es)
  /\ readers w' ⊆ readers w.
Proof.
  intros tid w'. destruct (process_media_quiet U X self input lang mode w)
    as [(es & Hl & Hes) Hr].
  split; [|exact Hr]. exists es. split; [|exact Hes].
  fold w' in Hl. rewrite Hl. unfold task_world. world_simpl.
  by rewrite <- app_assoc.
Qed.

(** ** Storage after a run on a local file *)

(** When the input is a file on storage, a run of [process_media]
    removes nothing: every path that named a file before the run names
    one after it, the input among them.  Every path the run answers names
    a file that exists when it returns, the compressed file at the path of
    line 62 and the PDF at the path of lines 193-195, and a PDF is only
    answered together with the compressed file. *)
Theorem local_file_run_removes_nothing
    (U : unicode_db) (X : collaborators) (self : citrailmu)
    (input lang mode : pystr) (w w' : world) (c p : option pystr)
    (Hfile : path_isfile w input = true)
    (Hrun : process_media U X self input lang mode w = (Ret (c, p), w')) :
  let mp3 := mp3_path_of U X input in
  let pdf := pdf_path_of U X mp3 lang mode in
  (forall q, is_Some (files w !! q) -> is_Some (files w' !! q))
  /\ (forall q, c = Some q -> q = mp3 /\ is_Some (files w' !! q))
  /\ (forall q, p = Some q -> q = pdf /\ is_Some (files w' !! q) /\ c = Some mp3).
Proof.
  intros mp3 pdf. revert Hrun.
  unfold process_media. rewrite process_media_with_run. cbv zeta.
  set (tid := task_id_of X w). set (w1 := task_world X lang mode w).
  rewrite media_processor_dispatch.
  assert (classify U w1 input = LocalFile) as ->.
  { unfold classify. by replace (path_isfile w1 input) with true. }
  assert (forall (m : gmap pystr (list N)) k (d : list N) q,
            is_Some (m !! q) -> is_Some (<[k := d]> m !! q)) as Hkeep.
  { intros m k d q Hq. destruct (decide (k = q)) as [->|Hne].
    - rewrite lookup_insert_eq. eauto.
    - by rewrite lookup_insert_ne. }
  destruct (compress_audio U X input tid w1) as [r1 w2] eqn:H1.
  assert (files w1 = files w) as Hf0 by done.
  apply compress_audio_files in H1 as [[-> Hf1]|(d1 & -> & Hf1)].
  { cbn [present]. intros [= <- <- <-]. rewrite Hf1, Hf0. by repeat split. }
  fold mp3 in Hf1 |- *. rewrite Hf0 in Hf1.
  rewrite (present_nonempty mp3)
    by (apply path_join_nonempty; by intros [_ ?]%app_eq_nil).
  assert (forall w3 c0, files w3 = <[mp3 := d1]> (files w) ->
    c0 = None \/ c0 = Some mp3 ->
    (forall q, is_Some (files w !! q) -> is_Some (files w3 !! q))
    /\ (forall q, c0 = Some q -> q = mp3 /\ is_Some (files w3 !! q))
    /\ (forall q, @None pystr = Some q ->
          q = pdf /\ is_Some (files w3 !! q) /\ c0 = Some mp3)) as Honly.
  { intros w3 c0 -> Hc0. split; [|split]; [| |done].
    - intros q. apply Hkeep.
    - intros q Hq. destruct Hc0 as [->| ->]; [done|]. injection Hq as <-.
      rewrite lookup_insert_eq. eauto. }
  destruct (aigc_processor U X self mp3 lang mode tid w2) as [[r2|e] w3] eqn:H2;
    apply aigc_processor_frame in H2 as [_ Hf2].
  2:{ intros [= <- <- <-]. apply Honly; [by rewrite <- Hf1, <- Hf2|by left]. }
  destruct (present r2) as [t|].
  2:{ intros [= <- <- <-]. apply Honly; [congruence|by right]. }
  destruct (markdown_to_pdf U X t mp3 lang mode tid w3) as [[r3|e] w4] eqn:H3;
    apply markdown_to_pdf_frame in H3 as (_ & _ & H3).
  2:{ destruct H3 as [[[=] _]|(? & [=] & _)]. }
  fold pdf in H3. destruct H3 as [[[= ->] Hf3]|(d3 & [= ->] & Hf3)].
  { cbn [present]. intros [= <- <- <-]. apply Honly; [congruence|by right]. }
  rewrite (present_nonempty pdf)
    by (apply path_join_nonempty; by intros [_ ?]%app_eq_nil).
  intros [= <- <- <-]. world_simpl. rewrite Hf3, Hf2, Hf1.
  split; [|split].
  - intros q Hq. by do 2 apply Hkeep.
  - intros q [= <-]. split; [done|]. apply Hkeep. rewrite lookup_insert_eq. eauto.
  - intros q [= <-]. split; [done|]. split; [|done]. rewrite lookup_insert_eq. eauto.
Qed.

(** ** The temporary file of a web download *)

Lemma split_head_no_sep sep s : sep ∉ split_head sep s.
Proof.
  induction s as [|c t IH]; cbn [split_head]; [apply not_elem_of_nil|].
  destruct (N.eqb_spec c sep) as [->|Hne]; [apply not_elem_of_nil|].
  apply not_elem_of_cons. split; [congruence|done].
Qed.

Lemma basename_sub c p : c ∈ basename p -> c ∈ p.
Proof.
  unfold basename, slice_from. intros H.
  rewrite <- (take_drop (Z.to_nat (rfind 47 p + 1)) p). apply elem_of_app. by right.
Qed.

Lemma string_of_uint_digits d :
  forallb is_digit_or_minus (str (NilZero.string_of_uint d)) = true.
Proof.
  assert (forall u, forallb is_digit_or_minus (str (NilEmpty.string_of_uint u)) = true)
    as Hne by (induction u; [reflexivity|exact IHu..]).
  destruct d; [reflexivity|apply (Hne (_ d))..].
Qed.

Lemma dec_str_digits z c : c ∈ dec_str z -> is_digit_or_minus c = true.
Proof.
  unfold dec_str, NilZero.string_of_int. intros Hc.
  assert (forallb is_digit_or_minus
            (str match Z.to_int z with
                 | Decimal.Pos d => NilZero.string_of_uint d
                 | Decimal.Neg d => String "-" (NilZero.string_of_uint d)
                 end) = true) as Hall.
  { destruct (Z.to_int z); [apply string_of_uint_digits|].
    apply (string_of_uint_digits d). }
  rewrite forallb_forall in Hall. by apply Hall, list_elem_of_In.
Qed.

Lemma download_name_plain t c :
  c ∈ str "download_" ++ dec_str t -> c <> 47 /\ c <> 63.
Proof.
  intros [H|H]%elem_of_app.
  - apply list_elem_of_In in H. vm_compute in H.
    repeat (destruct H as [<-|H]; [done|]). done.
  - apply dec_str_digits in H. unfold is_digit_or_minus, in_range in H.
    split; intros ->; done.
Qed.



(** The download of a generic URL lands directly in the temporary
    directory.  Its name is what follows the last slash of the URL once the
    query is cut off, or [download_] and the time in seconds when nothing
    follows it; either way the name is not empty and holds no slash and no
    question mark, and [.mp4] is put after it whatever extension it has. *)
Theorem web_download_lands_in_tempdir (X : collaborators) (url : pystr) (w : world) :
  exists name w1,
    web_temp_path X url w
      = (Ret (join_prefix (gettempdir X) ++ name ++ str ".mp4"), w1)
    /\ (name = basename (split_head 63 url)
        \/ basename (split_head 63 url) = []
           /\ name = str "download_" ++ dec_str (time_time X w))
    /\ name <> [] /\ (47 ∉ name) /\ (63 ∉ name)
    /\ basename (join_prefix (gettempdir X) ++ name ++ str ".mp4") = name ++ str ".mp4"
    /\ files w1 = files w.
Proof.
  assert (forall name, 47 ∉ name ->
            path_join (gettempdir X) (name ++ str ".mp4")
              = join_prefix (gettempdir X) ++ name ++ str ".mp4"
            /\ basename (join_prefix (gettempdir X) ++ name ++ str ".mp4")
               = name ++ str ".mp4") as Hshape.
  { intros name Hn.
    assert (47 ∉ name ++ str ".mp4") as Hno.
    { intros [H|H]%elem_of_app; [done|].
      apply list_elem_of_In in H. vm_compute in H. intuition discriminate. }
    split; [by apply path_join_relative, relative_of_no_slash|].
    by apply basename_after_prefix. }
  unfold web_temp_path. prog_unfold.
  destruct (basename (split_head 63 url)) as [|c b] eqn:Hb; cbn.
  - set (name := str "download_" ++ dec_str (time_time X w)).
    assert (47 ∉ name) as H47 by (intros H; by apply download_name_plain in H as [? _]).
    assert (63 ∉ name) as H63 by (intros H; by apply download_name_plain in H as [_ ?]).
    destruct (Hshape name H47) as [-> Hbase].
    exists name, (tick w). repeat split; try done. by right.
  - assert (47 ∉ c :: b) as H47 by (rewrite <- Hb; apply basename_no_slash).
    assert (63 ∉ c :: b) as H63.
    { rewrite <- Hb. intros H%basename_sub. by apply split_head_no_sep in H. }
    destruct (Hshape (c :: b) H47) as [Hj Hbase].
    change (path_join (gettempdir X) (c :: b ++ str ".mp4"))
      with (path_join (gettempdir X) ((c :: b) ++ str ".mp4")).
    rewrite Hj.
    exists (c :: b), w. repeat split; try done. by left.
Qed.

Section Survives.

Context (U : unicode_db) (X : collaborators).



End Survives.


(** ** The AI stage *)

(** In transcript mode the target language never reaches the model: the
    AI stage does the same whatever language is asked for. *)
Theorem transcript_ignores_language
    (U : unicode_db) (X : collaborators) (self : citrailmu)
    (input lang1 lang2 mode tid : pystr) (w : world)
    (Hmode : lower U mode = str "transcript") :
  aigc_processor U X self input lang1 mode tid w
  = aigc_processor U X self input lang2 mode tid w.
Proof.
  rewrite !aigc_processor_run. cbv zeta. rewrite Hmode.
  rewrite (bool_decide_false (str "transcript" = str "analysis")) by done.
  reflexivity.
Qed.

(** A text that the AI stage answers is clean: no fence marker is left in
    it, no white space stands before or after it, and cleaning it again
    changes nothing.  The mode was one of the two known ones, and the stage
    wrote nothing to storage. *)
Theorem aigc_answer_is_clean
    (U : unicode_db) (X : collaborators) (self : citrailmu)
    (input lang mode tid text : pystr) (w w' : world)
    (Hrun : aigc_processor U X self input lang mode tid w = (Ret (Some text), w')) :
  contains (str "```") text = false
  /\ strip text = text
  /\ clean_markdown text = text
  /\ (lower U mode = str "analysis" \/ lower U mode = str "transcript")
  /\ files w' = files w.
Proof.
  pose proof Hrun as Hframe. apply aigc_processor_frame in Hframe as [_ Hfiles].
  revert Hrun. rewrite aigc_processor_run. cbv zeta.
  destruct (aigc_probe X self input w) as [[fd|e] w1]; [|done].
  assert (forall prompt,
    match aigc_generate X self input mode tid prompt w1 with
    | (Ret r0, w2) => (Ret r0, w2)
    | (Raise e, w2) =>
        (Ret None, add_log (ERROR, tagged tid
           (str "AI " ++ mode ++ str " processing failed: " ++ exn_msg e)) w2)
    end = (Ret (Some text), w') -> exists raw, text = clean_markdown raw) as Hgen.
  { intros prompt. unfold aigc_generate. prog_unfold.
    destruct (genai_upload_file X input w1); cbn; [done|].
    destruct (genai_generate X _ _ _ _) as [|raw]; cbn; [done|].
    intros [= <- _]. by exists raw. }
  assert (forall raw, text = clean_markdown raw ->
            contains (str "```") text = false /\ strip text = text
            /\ clean_markdown text = text) as Hclean.
  { intros raw ->.
    assert (contains (str "```") (clean_markdown raw) = false) as Hno
      by (unfold clean_markdown; apply contains_strip, sub_fence_no_fence).
    split; [exact Hno|]. split.
    - unfold clean_markdown. apply strip_idem.
    - rewrite clean_fence_free by exact Hno. unfold clean_markdown. apply strip_idem. }
  case_bool_decide as Ha.
  { intros [raw Hraw]%Hgen. destruct (Hclean raw Hraw) as (? & ? & ?). auto 6. }
  case_bool_decide as Ht; [|done].
  intros [raw Hraw]%Hgen. destruct (Hclean raw Hraw) as (? & ? & ?). auto 6.
Qed.

(** ** The PDF stage *)

(** When the PDF stage answers a path, the text had no level-one heading
    of its own and the mode was one of the two known ones.  The path is
    that of lines 193-195, and the file there is what the renderer made of
    one section, the text under a heading [CitraIlmu Analysis (language)]
    or [CitraIlmu Transcript (language)], with that heading as title and
    subject of the document. *)
Theorem pdf_needs_plain_text_and_known_mode
    (U : unicode_db) (X : collaborators)
    (md orig lang mode tid pf : pystr) (w w' : world)
    (Hrun : markdown_to_pdf U X md orig lang mode tid w = (Ret (Some pf), w')) :
  startswith (str "# ") md = false
  /\ pf = pdf_path_of U X orig lang mode
  /\ exists kind title data w0,
       (lower U mode = str "analysis" /\ kind = str "Analysis"
        \/ lower U mode = str "transcript" /\ kind = str "Transcript")
       /\ title = str "CitraIlmu " ++ kind ++ str " (" ++ lang ++ str ")"
       /\ pdf_save X
            (PdfDoc 3 [(str "# " ++ title ++ nl ++ nl ++ md, css)]
               [(str "title", title); (str "subject", title);
                (str "author", str "Ikmal Said"); (str "creator", str "CitraIlmu")])
            pf w0 = inr data
       /\ files w' !! pf = Some data.
Proof.
  revert Hrun.
  unfold markdown_to_pdf, ensure_heading, MarkdownPdf, pdf_add_section, pdf_save_to, set_meta.
  set (path := pdf_path_of U X orig lang mode).
  do 3 prog_unfold. cbn.
  destruct (pdf_new_error X _); cbn; [done|].
  destruct (startswith (str "# ") md); cbn.
  { by destruct (pdf_add_section_error X _ _ _ _). }
  case_bool_decide as Ha; cbn.
  { destruct (pdf_add_section_error X _ _ _ _); cbn; [done|].
    destruct (pdf_save X _ _ _) as [|data] eqn:Hsave; cbn; [done|].
    intros [= <- <-]. split; [done|]. split; [done|].
    exists (str "Analysis"), (str "CitraIlmu Analysis (" ++ lang ++ str ")"), data.
    eexists. split; [by left|]. split; [done|]. split; [exact Hsave|].
    world_simpl. apply lookup_insert_eq. }
  case_bool_decide as Ht; cbn; [|done].
  destruct (pdf_add_section_error X _ _ _ _); cbn; [done|].
  destruct (pdf_save X _ _ _) as [|data] eqn:Hsave; cbn; [done|].
  intros [= <- <-]. split; [done|]. split; [done|].
  exists (str "Transcript"), (str "CitraIlmu Transcript (" ++ lang ++ str ")"), data.
  eexists. split; [by right|]. split; [done|]. split; [exact Hsave|].
  world_simpl. apply lookup_insert_eq.
Qed.

(** ** [__format_duration] *)

Lemma Qfloor_div_pos (q : Q) (n : positive) :
  Qfloor (q / inject_Z (Z.pos n)) = (Qfloor q / Z.pos n)%Z.
Proof.
  destruct q as [a b]. unfold Qfloor, Qdiv, Qmult, Qinv, inject_Z. cbn.
  rewrite Z.mul_1_r, Pos2Z.inj_mul. by rewrite Z.div_div by lia.
Qed.

Lemma Qfloor_minus_Z (q : Q) (k : Z) : Qfloor (q - inject_Z k) = (Qfloor q - k)%Z.
Proof.
  destruct q as [a b]. unfold Qfloor, Qminus, Qplus, Qopp, inject_Z. cbn.
  rewrite Z.mul_1_r, Pos.mul_1_r.
  replace (a + - k * Z.pos b)%Z with (a + (- k) * Z.pos b)%Z by lia.
  rewrite Z.div_add by lia. lia.
Qed.

Lemma fmt_02d_width z : (0 <= z < 100)%Z -> length (fmt_02d z) = 2%nat.
Proof.
  intros Hz.
  assert (forallb (fun n => Nat.eqb (length (fmt_02d (Z.of_nat n))) 2) (seq 0 100) = true)
    as Hall by (vm_compute; reflexivity).
  rewrite forallb_forall in Hall.
  specialize (Hall (Z.to_nat z)). rewrite Z2Nat.id in Hall by lia.
  apply Nat.eqb_eq, Hall, in_seq. lia.
Qed.

(** The three fields of a formatted duration are the hours, minutes and
    seconds of its whole part: minutes and seconds stay below sixty and
    the three recombine to the whole seconds.  Up to a hundred hours the
    text is exactly eight characters long, [HH:MM:SS]. *)
Theorem format_duration_fields (d : Q)
    (Hlo : (0 <= d)%Q) (Hhi : (d < inject_Z 360000)%Q) :
  exists h m s : Z,
    format_duration d = fmt_02d h ++ str ":" ++ fmt_02d m ++ str ":" ++ fmt_02d s
    /\ (0 <= h < 100)%Z /\ (0 <= m < 60)%Z /\ (0 <= s < 60)%Z
    /\ (3600 * h + 60 * m + s = Qfloor d)%Z
    /\ length (format_duration d) = 8%nat.
Proof.
  assert (0 <= Qfloor d < 360000)%Z as HF.
  { split.
    - change 0%Z with (Qfloor 0). by apply Qfloor_resp_le.
    - apply Z.lt_nge. intros Hge. apply (Qlt_not_le _ _ Hhi).
      eapply Qle_trans; [|apply Qfloor_le]. by rewrite <- Zle_Qle. }
  set (F := Qfloor d) in *.
  assert (Qfloor (d / inject_Z 3600) = F / 3600)%Z as Hh by apply Qfloor_div_pos.
  assert (Qfloor ((d - inject_Z (3600 * (F / 3600))) / inject_Z 60)
          = (F - 3600 * (F / 3600)) / 60)%Z as Hm
    by (by rewrite Qfloor_div_pos, Qfloor_minus_Z).
  assert (Qfloor (d - inject_Z (60 * Qfloor (d / inject_Z 60))) = F - 60 * (F / 60))%Z
    as Hs by (by rewrite Qfloor_minus_Z, Qfloor_div_pos).
  assert (format_duration d
          = fmt_02d (F / 3600) ++ str ":" ++ fmt_02d ((F - 3600 * (F / 3600)) / 60)
            ++ str ":" ++ fmt_02d (F - 60 * (F / 60))) as Hfmt.
  { unfold format_duration. cbv zeta. by rewrite Hh, Hm, Hs. }
  assert (0 <= F / 3600 < 100)%Z as Hhr by (Z.to_euclidean_division_equations; lia).
  assert (0 <= (F - 3600 * (F / 3600)) / 60 < 60)%Z as Hmr
    by (Z.to_euclidean_division_equations; lia).
  assert (0 <= F - 60 * (F / 60) < 60)%Z as Hsr
    by (Z.to_euclidean_division_equations; lia).
  exists (F / 3600)%Z, ((F - 3600 * (F / 3600)) / 60)%Z, (F - 60 * (F / 60))%Z.
  split; [exact Hfmt|]. split; [exact Hhr|]. split; [exact Hmr|]. split; [exact Hsr|].
  split; [Z.to_euclidean_division_equations; lia|].
  rewrite Hfmt, !length_app, !fmt_02d_width by lia. reflexivity.
Qed.

(** ** A local file and the network *)

(** For an input that is a file on storage, [__media_processor] asks
    nothing of the video site, the web, the model or the PDF renderer: two
    sets of collaborators with the same temporary directory and the same
    decoder give the same run. *)
Theorem local_file_needs_no_network
    (U : unicode_db) (X X' : collaborators) (input tid : pystr) (w : world)
    (Hfile : path_isfile w input = true)
    (Htmp : gettempdir X' = gettempdir X)
    (Hopen : audio_open X' = audio_open X)
    (Hfade : audio_fadeout_error X' = audio_fadeout_error X)
    (Hencode : audio_encode X' = audio_encode X) :
  media_processor U X' input tid w = media_processor U X input tid w.
Proof.
  rewrite !media_processor_dispatch. unfold classify. rewrite Hfile.
  rewrite !compress_audio_run. cbv zeta.
  by rewrite Htmp, Hopen, Hfade, Hencode.
Qed.

(** ** Concrete runs of the further properties *)

Lemma clean_markdown_without_fence_witness :
  clean_markdown (str "  Friday talk" ++ nl) = str "Friday talk".
Proof. exact (clean_markdown_without_fence (str "  Friday talk" ++ nl) eq_refl). Defined.


Lemma compress_audio_overwrites_own_output_witness :
  files (compress_audio ascii_db studio (str "/tmp/talk.mp3") (str "T1") mp3_world).2
    !! str "/tmp/talk.mp3" = Some [73; 68; 51].
Proof.
  destruct (compress_audio_overwrites_own_output ascii_db studio
              (str "/data/talk.wav") (str "T1") (str "/tmp/talk.mp3") mp3_world
              (compress_audio ascii_db studio (str "/tmp/talk.mp3") (str "T1") mp3_world).2)
    as (_ & d & data & Hdata & Hfile).
  - vm_compute. discriminate.
  - vm_compute. reflexivity.
  - rewrite Hfile. f_equal. symmetry.
    exact (f_equal (fun r => match r with inr x => x | inl _ => [] end) Hdata).
Defined.

Lemma local_file_run_removes_nothing_witness :
  is_Some (files (process_media ascii_db studio plain_self (str "/data/talk.wav")
                    (str "english") (str "analysis") talk_world).2
           !! str "/data/talk.wav")
  /\ is_Some (files (process_media ascii_db studio plain_self (str "/data/talk.wav")
                       (str "english") (str "analysis") talk_world).2
              !! str "/tmp/talk_analysis_english.pdf").
Proof.
  destruct (local_file_run_removes_nothing ascii_db studio plain_self
              (str "/data/talk.wav") (str "english") (str "analysis") talk_world
              (process_media ascii_db studio plain_self (str "/data/talk.wav")
                 (str "english") (str "analysis") talk_world).2
              (Some (str "/tmp/talk.mp3")) (Some (str "/tmp/talk_analysis_english.pdf")))
    as (Hkept & _ & Hpdf).
  - vm_compute. reflexivity.
  - vm_compute. reflexivity.
  - split.
    + apply Hkept. vm_compute. eauto.
    + by apply (Hpdf (str "/tmp/talk_analysis_english.pdf")).
Defined.


Lemma transcript_ignores_language_witness :
  aigc_processor ascii_db studio plain_self (str "/data/talk.wav")
    (str "english") (str "Transcript") (str "T1") talk_world
  = aigc_processor ascii_db studio plain_self (str "/data/talk.wav")
      (str "malay") (str "Transcript") (str "T1") talk_world.
Proof.
  exact (transcript_ignores_language ascii_db studio plain_self (str "/data/talk.wav")
           (str "english") (str "malay") (str "Transcript") (str "T1") talk_world eq_refl).
Defined.

Lemma aigc_answer_is_clean_witness :
  contains (str "```") (str "Hi") = false /\ clean_markdown (str "Hi") = str "Hi".
Proof.
  destruct (aigc_answer_is_clean ascii_db
              (with_model (str "```md" ++ nl ++ str "Hi" ++ nl ++ str "```") studio)
              plain_self (str "/data/talk.wav") (str "english") (str "analysis")
              (str "T1") (str "Hi") talk_world
              (aigc_processor ascii_db
                 (with_model (str "```md" ++ nl ++ str "Hi" ++ nl ++ str "```") studio)
                 plain_self (str "/data/talk.wav") (str "english") (str "analysis")
                 (str "T1") talk_world).2)
    as (Hno & _ & Hclean & _).
  - vm_compute. reflexivity.
  - split; [exact Hno|exact Hclean].
Defined.

Lemma pdf_needs_plain_text_and_known_mode_witness :
  startswith (str "# ") (str "Some text") = false
  /\ is_Some (files (markdown_to_pdf ascii_db studio (str "Some text") (str "/tmp/talk.mp3")
                       (str "english") (str "analysis") (str "T1") mp3_world).2
              !! str "/tmp/talk_analysis_english.pdf").
Proof.
  destruct (pdf_needs_plain_text_and_known_mode ascii_db studio
              (str "Some text") (str "/tmp/talk.mp3") (str "english") (str "analysis")
              (str "T1") (str "/tmp/talk_analysis_english.pdf") mp3_world
              (markdown_to_pdf ascii_db studio (str "Some text") (str "/tmp/talk.mp3")
                 (str "english") (str "analysis") (str "T1") mp3_world).2)
    as (Hplain & _ & kind & title & data & w0 & _ & _ & _ & Hfile).
  - vm_compute. reflexivity.
  - split; [exact Hplain|]. rewrite Hfile. eauto.
Defined.

Lemma format_duration_fields_witness :
  length (format_duration (125 # 2)) = 8%nat.
Proof.
  destruct (format_duration_fields (125 # 2)) as (h & m & s & _ & _ & _ & _ & _ & H).
  - unfold Qle. cbn. lia.
  - reflexivity.
  - exact H.
Defined.

Lemma local_file_needs_no_network_witness :
  media_processor ascii_db (with_failing_get studio) (str "/data/talk.wav") (str "T1")
    talk_world
  = media_processor ascii_db studio (str "/data/talk.wav") (str "T1") talk_world.
Proof.
  apply (local_file_needs_no_network ascii_db studio (with_failing_get studio));
    [vm_compute|..]; reflexivity.
Defined.
